(** * AutoPolicy: the rule-based driving policy of DI-drive

    A shallow embedding of [core/policy/auto_policy.py] and the properties
    of its controller life cycle and control decisions.

    Numbers.  Python floats and ints that are compared or capped
    ([speed], [tl_dis], [steer], [throttle], the gains ...) are rationals
    [Q]; the literals [0.1], [0.3], [15] are the rationals they denote.
    Integer codes ([command], [agent_state], [tl_state], env ids) are [Z].

    Dictionaries.  [_last_steer_dict] is only read and written by key and is
    a [gmap Z Q].  [_controller_dict] is iterated while [_reset] pops and
    re-inserts its keys, so it is modelled down to the entry table of
    CPython's insertion-ordered dict (module [PyDict]). *)

From Stdlib Require Import ZArith QArith Qminmax Qabs List String Bool Lia.
From stdpp Require Import base option list gmap.
Import ListNotations.

Local Open Scope Z_scope.

(* ===================================================================== *)
(** ** CPython's dict, as far as pop, insertion and key iteration see it *)
(* ===================================================================== *)

(** The model follows [Objects/dictobject.c] of CPython 3.8 and later: the
    compact entry table, deletion by dummy entries, the rebuild on insertion
    and the key iterator with its two run-time checks.  The table sizes are
    those of [calculate_log2_keysize] in CPython 3.10 and later.  Keys are
    found by scanning the entries, which gives what the hash index gives. *)

Module PyDict.
Section Dict.
Context {V : Type}.

(** The entry table [DK_ENTRIES]: entries in insertion order; a deleted
    entry stays in the table as a dummy ([None]).  [dk_usable] counts the
    entries that can still be appended before the table is rebuilt. *)
Record t : Type := mk {
  dk_entries : list (option (Z * V));
  dk_usable : Z;
}.

(** [dict()] and [d.clear()]: the shared empty key table. *)
Definition empty : t := mk [] 0.

Definition clear (d : t) : t := empty.

(** The live entries, in table order: [d.items()]. *)
Definition items (d : t) : list (Z * V) := omap id (dk_entries d).

Definition keys (d : t) : list Z := (items d).*1.

(** The keys of the entries of a table that are not dummies. *)
Definition live_keys (es : list (option (Z * V))) : list Z := (omap id es).*1.

(** [ma_used]: the number of live entries, [len(d)]. *)
Definition ma_used (d : t) : nat := length (items d).

Fixpoint lookup_entries (es : list (option (Z * V))) (k : Z) : option V :=
  match es with
  | [] => None
  | None :: es' => lookup_entries es' k
  | Some (k', v) :: es' => if Z.eqb k' k then Some v else lookup_entries es' k
  end.

(** [d[k]]: [None] stands for [KeyError]. *)
Definition getitem (d : t) (k : Z) : option V := lookup_entries (dk_entries d) k.

(** [k in d] *)
Definition contains (d : t) (k : Z) : bool :=
  match getitem d k with Some _ => true | None => false end.

(** [delitem_common]: the entry of [k] becomes a dummy; the table keeps
    its length and [dk_usable] is not given back. *)
Fixpoint delete_entry (es : list (option (Z * V))) (k : Z) : list (option (Z * V)) :=
  match es with
  | [] => []
  | None :: es' => None :: delete_entry es' k
  | Some (k', v) :: es' =>
      if Z.eqb k' k then None :: es' else Some (k', v) :: delete_entry es' k
  end.

(** [d.pop(k)]: [None] stands for [KeyError]. *)
Definition pop (d : t) (k : Z) : option (V * t) :=
  match getitem d k with
  | Some v => Some (v, mk (delete_entry (dk_entries d) k) (dk_usable d))
  | None => None
  end.

Fixpoint replace_entry (es : list (option (Z * V))) (k : Z) (v : V)
  : list (option (Z * V)) :=
  match es with
  | [] => []
  | None :: es' => None :: replace_entry es' k v
  | Some (k', v') :: es' =>
      if Z.eqb k' k then Some (k', v) :: es' else Some (k', v') :: replace_entry es' k v
  end.

(** The object stored under [k] takes a new state; the table itself does
    not change. *)
Definition mutate (d : t) (k : Z) (v : V) : t :=
  mk (replace_entry (dk_entries d) k v) (dk_usable d).

Definition PyDict_MINSIZE : Z := 8.

Definition USABLE_FRACTION (n : Z) : Z := Z.shiftl n 1 / 3.

Definition GROWTH_RATE (d : t) : Z := Z.of_nat (ma_used d) * 3.

Definition _Py_bit_length (x : Z) : Z := if x <=? 0 then 0 else Z.log2 x + 1.

Definition calculate_log2_keysize (minsize : Z) : Z :=
  let minsize := Z.lor minsize PyDict_MINSIZE - 1 in
  _Py_bit_length (Z.lor minsize (PyDict_MINSIZE - 1)).

(** [insertion_resize]: a new table sized for three times the live entries;
    the live entries are copied in order, the dummies are dropped. *)
Definition insertion_resize (d : t) : t :=
  let newsize := Z.shiftl 1 (calculate_log2_keysize (GROWTH_RATE d)) in
  mk (Some <$> items d) (USABLE_FRACTION newsize - Z.of_nat (ma_used d)).

(** [d[k] = v] ([insertdict]): an existing key keeps its entry and gets the
    new value; a new key is appended, after a rebuild when no entry is
    usable. *)
Definition setitem (d : t) (k : Z) (v : V) : t :=
  if contains d k then mutate d k v
  else
    let d' := if dk_usable d <=? 0 then insertion_resize d else d in
    mk (dk_entries d' ++ [Some (k, v)]) (dk_usable d' - 1).

(** The scan of [dictiter_iternextkey]: from index [i] on, the first entry
    that is not a dummy, with its index. *)
Fixpoint next_entry (es : list (option (Z * V))) (i : nat) : option (nat * Z) :=
  match es, i with
  | [], _ => None
  | _ :: es', S i' =>
      match next_entry es' i' with
      | Some (j, k) => Some (S j, k)
      | None => None
      end
  | Some (k, _) :: _, O => Some (O, k)
  | None :: es', O =>
      match next_entry es' O with
      | Some (j, k) => Some (S j, k)
      | None => None
      end
  end.

(** No key has two live entries. *)
Definition wf (d : t) : Prop := NoDup (keys d).

End Dict.
Global Arguments t : clear implicits.
End PyDict.


(* ===================================================================== *)
(** ** Python values and exceptions *)
(* ===================================================================== *)

(** [a < b] and [a > b] on numbers. *)
Definition py_lt (a b : Q) : bool := negb (Qle_bool b a).

Definition py_gt (a b : Q) : bool := py_lt b a.

(** [min(a, b)]: the first argument unless the second is smaller. *)
Definition py_min (a b : Q) : Q := if py_lt b a then b else a.

(** [abs(b)] of a bool is the int [0] or [1]; an int is true when not [0]. *)
Definition py_abs_bool (b : bool) : Z := Z.abs (Z.b2z b).

Definition py_truth (z : Z) : bool := negb (z =? 0).

Inductive Exception : Type :=
  | KeyError (key : Z)
  | RuntimeError (msg : string).

Inductive Result (A : Type) : Type :=
  | Ok (a : A)
  | Raise (e : Exception).
Global Arguments Ok {A} a.
Global Arguments Raise {A} e.

(* ===================================================================== *)
(** ** Data model *)
(* ===================================================================== *)

Definition Vec3 : Type := Q * Q * Q.

(** The control command, a dict with the keys [steer], [throttle], [brake]. *)
Record Control : Type := mkControl {
  steer : Q;
  throttle : Q;
  brake : Q;
}.

Definition set_throttle (x : Q) (c : Control) : Control :=
  {| steer := steer c; throttle := x; brake := brake c |}.

Definition set_steer (x : Q) (c : Control) : Control :=
  {| steer := x; throttle := throttle c; brake := brake c |}.

(** The value stored for an id in the dict a forward call returns. *)
Record Action : Type := mkAction { action : Control }.

(** A PID gain dict with the keys [K_P], [K_D], [K_I], [dt]. *)
Record Gains : Type := mkGains { K_P : Q; K_D : Q; K_I : Q; dt : Q }.

Definition DEFAULT_LATERAL_DICT : Gains := mkGains 1 0.1 0 0.1.
Definition DEFAULT_LONGITUDINAL_DICT : Gains := mkGains 1.0 0 0.05 0.1.
Definition DEFAULT_LAT_HW_DICT : Gains := mkGains 0.75 0.01 0.2 0.1.
Definition DEFAULT_LAT_CITY_DICT : Gains := mkGains 0.58 0.01 0.25 0.1.
Definition DEFAULT_LONG_HW_DICT : Gains := mkGains 0.37 0.012 0.016 0.1.
Definition DEFAULT_LONG_CITY_DICT : Gains := mkGains 0.15 0.025 0.035 0.1.

(** The observation of one environment, with the fields [_forward] reads. *)
Record Obs : Type := mkObs {
  command : Z;
  agent_state : Z;
  tl_state : Z;
  tl_dis : Q;
  speed : Q;
  location : Vec3;
  orientation : Vec3;
  target : Vec3;
  speed_limit : Q;
}.

(** The policy's config; a gain dict may be [None]. *)
Record Config : Type := mkConfig {
  cfg_target_speed : Q;
  cfg_max_brake : Q;
  cfg_max_throttle : Q;
  cfg_max_steer : Q;
  cfg_ignore_light : bool;
  cfg_lateral_dict : option Gains;
  cfg_longitudinal_dict : option Gains;
  cfg_noise : bool;
  cfg_debug : bool;
}.

(** [AutoPolicy.config], the defaults. *)
Definition config : Config :=
  {| cfg_target_speed := 25;
     cfg_max_brake := 0.3;
     cfg_max_throttle := 0.75;
     cfg_max_steer := 0.8;
     cfg_ignore_light := false;
     cfg_lateral_dict := Some DEFAULT_LATERAL_DICT;
     cfg_longitudinal_dict := Some DEFAULT_LONGITUDINAL_DICT;
     cfg_noise := false;
     cfg_debug := false |}.

(* ===================================================================== *)
(** ** The collaborators from [core.models] and numpy *)
(* ===================================================================== *)

(** [VehiclePIDController] is imported from [core.models]; the policy only
    constructs it and calls its [forward], which returns a control command
    and advances the accumulated errors of the instance.  The uniform sampler
    of the noise wrapper draws from numpy's generator state. *)
Class CoreModels : Type := {
  VehiclePIDController : Type;
  VehiclePIDController_init :
    option Gains -> option Gains -> Q -> Q -> Q -> VehiclePIDController;
  VehiclePIDController_forward :
    VehiclePIDController -> Q -> Vec3 -> Vec3 -> Q -> Vec3 ->
    Control * VehiclePIDController;
  RandomState : Type;
  uniform : RandomState -> Q -> Q -> Q * RandomState;
}.

(* ===================================================================== *)
(** ** The policy *)
(* ===================================================================== *)

Section Policy.
Context `{CoreModels}.

(** What [_controller_dict] stores: the controller [_reset] built, plain or
    wrapped.  The wrapper keeps the wrapped model, the noise type and the
    two entries of [noise_kwargs]. *)
Inductive Controller : Type :=
  | Plain (model : VehiclePIDController)
  | SteerNoiseWrapper (model : VehiclePIDController)
      (noise_type : string) (low high : Q).

(** Modelled from the spec: [SteerNoiseWrapper.forward] of [core.models] is
    missing.  The wrapper decorates the motion controller's output: it
    perturbs [steer] by a uniform random offset in the configured range and
    leaves [throttle] and [brake] untouched.  A plain controller is called
    as it is. *)
Definition controller_forward (c : Controller)
    (current_speed : Q) (current_location current_orientation : Vec3)
    (target_speed : Q) (target_location : Vec3) (g : RandomState)
  : Control * Controller * RandomState :=
  match c with
  | Plain m =>
      let '(control, m') :=
        VehiclePIDController_forward m current_speed current_location
          current_orientation target_speed target_location in
      (control, Plain m', g)
  | SteerNoiseWrapper m ty lo hi =>
      let '(control, m') :=
        VehiclePIDController_forward m current_speed current_location
          current_orientation target_speed target_location in
      let '(offset, g') := uniform g lo hi in
      (set_steer (steer control + offset)%Q control,
       SteerNoiseWrapper m' ty lo hi, g')
  end.

(** The attributes of an [AutoPolicy] object, and the state of numpy's
    generator next to them. *)
Record AutoPolicy : Type := mkAutoPolicy {
  _cfg : Config;
  _controller_dict : PyDict.t Controller;
  _last_steer_dict : gmap Z Q;
  target_speed : Q;
  _max_brake : Q;
  _max_throttle : Q;
  _max_steer : Q;
  _ignore_traffic_light : bool;
  _lateral_dict : option Gains;
  _longitudinal_dict : option Gains;
  _debug : bool;
  np_random : RandomState;
}.

Definition set_controller_dict (d : PyDict.t Controller) (self : AutoPolicy) :=
  mkAutoPolicy (_cfg self) d (_last_steer_dict self) (target_speed self)
    (_max_brake self) (_max_throttle self) (_max_steer self)
    (_ignore_traffic_light self) (_lateral_dict self) (_longitudinal_dict self)
    (_debug self) (np_random self).

Definition set_last_steer_dict (m : gmap Z Q) (self : AutoPolicy) :=
  mkAutoPolicy (_cfg self) (_controller_dict self) m (target_speed self)
    (_max_brake self) (_max_throttle self) (_max_steer self)
    (_ignore_traffic_light self) (_lateral_dict self) (_longitudinal_dict self)
    (_debug self) (np_random self).

Definition set_lateral_dict (g : option Gains) (self : AutoPolicy) :=
  mkAutoPolicy (_cfg self) (_controller_dict self) (_last_steer_dict self)
    (target_speed self) (_max_brake self) (_max_throttle self) (_max_steer self)
    (_ignore_traffic_light self) g (_longitudinal_dict self)
    (_debug self) (np_random self).

Definition set_longitudinal_dict (g : option Gains) (self : AutoPolicy) :=
  mkAutoPolicy (_cfg self) (_controller_dict self) (_last_steer_dict self)
    (target_speed self) (_max_brake self) (_max_throttle self) (_max_steer self)
    (_ignore_traffic_light self) (_lateral_dict self) g
    (_debug self) (np_random self).

Definition set_np_random (g : RandomState) (self : AutoPolicy) :=
  mkAutoPolicy (_cfg self) (_controller_dict self) (_last_steer_dict self)
    (target_speed self) (_max_brake self) (_max_throttle self) (_max_steer self)
    (_ignore_traffic_light self) (_lateral_dict self) (_longitudinal_dict self)
    (_debug self) g.

(** *** Methods run on the object and may raise

    A method takes the object and returns its result, or the exception it
    raised, with the object as the call left it. *)
Definition M (A : Type) : Type := AutoPolicy -> Result A * AutoPolicy.

Definition ret {A} (a : A) : M A := fun self => (Ok a, self).

Definition bind {A B} (m : M A) (k : A -> M B) : M B :=
  fun self =>
    match m self with
    | (Ok a, self') => k a self'
    | (Raise e, self') => (Raise e, self')
    end.

Definition raise {A} (e : Exception) : M A := fun self => (Raise e, self).

Definition get : M AutoPolicy := fun self => (Ok self, self).

Definition modify (f : AutoPolicy -> AutoPolicy) : M unit :=
  fun self => (Ok tt, f self).

(** A subscript [d[k]]: [KeyError] when the key is missing. *)
Definition subscript {A} (k : Z) (o : option A) : M A :=
  match o with
  | Some a => ret a
  | None => raise (KeyError k)
  end.

Definition when (b : bool) (m : M unit) : M unit := if b then m else ret tt.

End Policy.

Declare Scope py_scope.
Delimit Scope py_scope with py.
Notation "x <- c1 ;; c2" := (bind c1 (fun x => c2))
  (at level 100, c1 at next level, right associativity) : py_scope.
Notation "c1 ;; c2" := (bind c1 (fun _ => c2))
  (at level 100, right associativity) : py_scope.

Section Methods.
Context `{CoreModels}.
Local Open Scope py_scope.

Definition is_none {A} (o : option A) : bool :=
  match o with Some _ => false | None => true end.

(** [for x in l: acc = body(x, acc)] over a list or over the keys of a dict
    that the body does not touch. *)
Fixpoint for_in {A B} (l : list A) (body : A -> B -> M B) (acc : B) : M B :=
  match l with
  | [] => ret acc
  | x :: l' => acc' <- body x acc ;; for_in l' body acc'
  end.

(** [for id in self._controller_dict: body(id)], with the body free to
    change the dict.  Each round is one [dictiter_iternextkey]: the iterator
    remembers the size of the dict when the loop began ([di_used]), the index
    it reached in the entry table ([di_pos]) and how many keys it still
    expects ([len]). *)
Fixpoint iter_controller_dict (di_used di_pos len : nat) (body : Z -> M unit)
  : M unit :=
  fun self =>
    let d := _controller_dict self in
    if negb (Nat.eqb di_used (PyDict.ma_used d)) then
      raise (RuntimeError "dictionary changed size during iteration") self
    else
      match PyDict.next_entry (PyDict.dk_entries d) di_pos with
      | None => ret tt self
      | Some (i, key) =>
          match len with
          | O => raise (RuntimeError "dictionary keys changed during iteration") self
          | S len' =>
              (body key ;; iter_controller_dict di_used (S i) len' body) self
          end
      end.

Definition for_in_controller_dict (body : Z -> M unit) : M unit :=
  self <- get ;;
  let used := PyDict.ma_used (_controller_dict self) in
  iter_controller_dict used 0 used body.

(** [_init]: the attributes are read from the config and both dicts are
    cleared. *)
Definition _init : M unit :=
  modify (fun self =>
    {| _cfg := _cfg self;
       _controller_dict := PyDict.clear (_controller_dict self);
       _last_steer_dict := ∅;
       target_speed := cfg_target_speed (_cfg self);
       _max_brake := cfg_max_brake (_cfg self);
       _max_throttle := cfg_max_throttle (_cfg self);
       _max_steer := cfg_max_steer (_cfg self);
       _ignore_traffic_light := cfg_ignore_light (_cfg self);
       _lateral_dict := cfg_lateral_dict (_cfg self);
       _longitudinal_dict := cfg_longitudinal_dict (_cfg self);
       _debug := cfg_debug (_cfg self);
       np_random := np_random self |}).

Definition _init_collect : M unit := _init.

Definition _init_eval : M unit := _init.

(** [AutoPolicy(cfg)]: the base class stores the config, [__init__] makes
    the two dicts and runs [_init_collect] and [_init_eval].  The attributes
    [_init] assigns do not exist before it runs; the record holds the values
    it is about to give them. *)
Definition __init__ (cfg : Config) (g : RandomState) : AutoPolicy :=
  let self :=
    {| _cfg := cfg;
       _controller_dict := PyDict.empty;
       _last_steer_dict := ∅;
       target_speed := cfg_target_speed cfg;
       _max_brake := cfg_max_brake cfg;
       _max_throttle := cfg_max_throttle cfg;
       _max_steer := cfg_max_steer cfg;
       _ignore_traffic_light := cfg_ignore_light cfg;
       _lateral_dict := cfg_lateral_dict cfg;
       _longitudinal_dict := cfg_longitudinal_dict cfg;
       _debug := cfg_debug cfg;
       np_random := g |} in
  snd ((_init_collect ;; _init_eval) self).

Definition _reset (data_id : Z) (noise : bool) : M unit :=
  self <- get ;;
  when (PyDict.contains (_controller_dict self) data_id)
    (popped <- subscript data_id (PyDict.pop (_controller_dict self) data_id) ;;
     modify (set_controller_dict (snd popped))) ;;
  self <- get ;;
  when (is_none (_lateral_dict self))
    (if py_gt (target_speed self) 50
     then modify (set_lateral_dict (Some DEFAULT_LAT_HW_DICT))
     else modify (set_lateral_dict (Some DEFAULT_LAT_CITY_DICT))) ;;
  self <- get ;;
  when (is_none (_longitudinal_dict self))
    (if py_gt (target_speed self) 50
     then modify (set_longitudinal_dict (Some DEFAULT_LONG_HW_DICT))
     else modify (set_longitudinal_dict (Some DEFAULT_LONG_CITY_DICT))) ;;
  self <- get ;;
  let controller :=
    VehiclePIDController_init (_lateral_dict self) (_longitudinal_dict self)
      (_max_throttle self) (_max_brake self) (_max_steer self) in
  (if noise then
     let noise_controller :=
       SteerNoiseWrapper controller "uniform" (-0.3) 0.3 in
     modify (fun self =>
       set_controller_dict
         (PyDict.setitem (_controller_dict self) data_id noise_controller) self)
   else
     modify (fun self =>
       set_controller_dict
         (PyDict.setitem (_controller_dict self) data_id (Plain controller)) self)) ;;
  modify (fun self =>
    set_last_steer_dict (<[data_id := 0%Q]> (_last_steer_dict self)) self).

Definition _emergency_stop (data_id : Z) : M Control :=
  self <- get ;;
  last_steer <- subscript data_id (_last_steer_dict self !! data_id) ;;
  ret {| steer := last_steer; throttle := 0.0; brake := 1.0 |}.

(** [controller.forward(...)] on the controller object stored under
    [data_id]: the object advances in place, and so does the generator when
    the wrapper draws from it. *)
Definition call_forward (data_id : Z) (controller : Controller)
    (current_speed : Q) (current_location current_orientation : Vec3)
    (target_speed : Q) (target_location : Vec3) : M Control :=
  fun self =>
    let '(control, controller', g') :=
      controller_forward controller current_speed current_location
        current_orientation target_speed target_location (np_random self) in
    (Ok control,
     set_np_random g'
       (set_controller_dict
          (PyDict.mutate (_controller_dict self) data_id controller') self)).

Definition _forward (data_id : Z) (obs : Obs) : M Control :=
  self <- get ;;
  controller <- subscript data_id (PyDict.getitem (_controller_dict self) data_id) ;;
  if command obs =? -1 then
    _emergency_stop data_id
  else if (agent_state obs =? 2) || (agent_state obs =? 3) then
    _emergency_stop data_id
  else if negb (_ignore_traffic_light self) && (agent_state obs =? 4) then
    _emergency_stop data_id
  else if negb (_ignore_traffic_light self) && (tl_state obs =? 0)
          && py_lt (tl_dis obs) 10 then
    _emergency_stop data_id
  else
    let current_speed := speed obs in
    let current_location := location obs in
    let current_orientation := orientation obs in
    let target_location := target obs in
    let target_speed := py_min (target_speed self) (speed_limit obs) in
    control <- call_forward data_id controller current_speed current_location
                 current_orientation target_speed target_location ;;
    let control :=
      if py_truth (py_abs_bool (py_gt (steer control) 0.1 && py_gt current_speed 15))
      then set_throttle (py_min (throttle control) 0.3) control
      else control in
    modify (fun self =>
      set_last_steer_dict (<[data_id := steer control]> (_last_steer_dict self)) self) ;;
    ret control.

(** [data] maps env ids to observations; its items are listed in the order
    of [data.keys()].  [to_ndarray] only changes the array type of the
    values. *)
Definition _forward_eval (data : list (Z * Obs)) : M (gmap Z Action) :=
  for_in data
    (fun '(i, obs) actions =>
       action <- _forward i obs ;;
       ret (<[i := mkAction action]> actions))
    ∅.

Definition _forward_collect (data : list (Z * Obs)) : M (gmap Z Action) :=
  for_in data
    (fun '(i, obs) actions =>
       action <- _forward i obs ;;
       ret (<[i := mkAction action]> actions))
    ∅.

Definition _reset_eval (data_id : option (list Z)) : M unit :=
  match data_id with
  | Some ids => for_in ids (fun id _ => _reset id false) tt
  | None => for_in_controller_dict (fun id => _reset id false)
  end.

Definition _reset_collect (data_id : option (list Z)) : M unit :=
  self <- get ;;
  let noise := cfg_noise (_cfg self) in
  match data_id with
  | Some ids => for_in ids (fun id _ => _reset id noise) tt
  | None => for_in_controller_dict (fun id => _reset id noise)
  end.

End Methods.

(* ===================================================================== *)
(** ** Vocabulary of the properties *)
(* ===================================================================== *)

Section Vocabulary.
Context `{CoreModels}.

(** The four emergency conditions, as the decision policy lists them. *)
Definition emergency (ignore_light : bool) (obs : Obs) : Prop :=
  command obs = -1
  \/ (agent_state obs = 2 \/ agent_state obs = 3)
  \/ (ignore_light = false /\ agent_state obs = 4)
  \/ (ignore_light = false /\ tl_state obs = 0 /\ (tl_dis obs < 10)%Q).

Definition emergencyb (ignore_light : bool) (obs : Obs) : bool :=
  (command obs =? -1)
  || ((agent_state obs =? 2) || (agent_state obs =? 3))
  || (negb ignore_light && (agent_state obs =? 4))
  || (negb ignore_light && (tl_state obs =? 0) && py_lt (tl_dis obs) 10).

(** The gain set the spec asks for: the explicit one, else the highway
    preset above a target speed of 50 and the city preset otherwise. *)
Definition spec_gains (explicit : option Gains) (speed : Q) (highway city : Gains)
  : Gains :=
  match explicit with
  | Some g => g
  | None => if Qlt_le_dec 50 speed then highway else city
  end.

(** The controller [_reset] stores for a freshly constructed model. *)
Definition wrap (noise : bool) (model : VehiclePIDController) : Controller :=
  if noise then SteerNoiseWrapper model "uniform" (-0.3) 0.3 else Plain model.

(** The model [_reset] constructs from the attributes of the object. *)
Definition fresh_model (self : AutoPolicy) : VehiclePIDController :=
  VehiclePIDController_init (_lateral_dict self) (_longitudinal_dict self)
    (_max_throttle self) (_max_brake self) (_max_steer self).

(** How many controllers the dict holds for an id. *)
Definition instances (d : PyDict.t Controller) (i : Z) : nat :=
  length (filter (fun k => k = i) (PyDict.keys d)).

(** The controller an id has, and the steer cached for it. *)
Definition controller_of (self : AutoPolicy) (i : Z) : option Controller :=
  PyDict.getitem (_controller_dict self) i.

Definition last_steer_of (self : AutoPolicy) (i : Z) : option Q :=
  _last_steer_dict self !! i.

(** *** Histories

    Every public method is a sequence of calls of [_init], [_reset] and
    [_forward]; a history lists such calls with what each returned. *)
Inductive Call : Type :=
  | CallInit
  | CallReset (data_id : Z) (noise : bool)
  | CallForward (data_id : Z) (obs : Obs).

Definition run_call (c : Call) : M (option Control) :=
  match c with
  | CallInit => bind _init (fun _ => ret None)
  | CallReset i noise => bind (_reset i noise) (fun _ => ret None)
  | CallForward i obs => bind (_forward i obs) (fun c => ret (Some c))
  end.

Definition Log : Type := list (Call * Result (option Control)).

Fixpoint run_calls (calls : list Call) (self : AutoPolicy) : Log * AutoPolicy :=
  match calls with
  | [] => ([], self)
  | c :: calls' =>
      let '(r, self') := run_call c self in
      let '(log, self'') := run_calls calls' self' in
      ((c, r) :: log, self'')
  end.

(** A policy object after construction with [cfg] and any history. *)
Definition reachable (cfg : Config) (self : AutoPolicy) : Prop :=
  exists g calls, self = snd (run_calls calls (__init__ cfg g)).

(** The steer a history has recorded for id [i]: the steer of the last
    command a non-emergency forward of [i] returned, and [0] when there is
    none since the last reset of [i]. *)
Definition record_steer (ignore_light : bool) (i : Z) (recorded : Q)
    (entry : Call * Result (option Control)) : Q :=
  match entry with
  | (CallInit, _) => 0%Q
  | (CallReset j _, Ok _) => if decide (j = i) then 0%Q else recorded
  | (CallForward j obs, Ok (Some c)) =>
      if decide (j = i) then
        if emergencyb ignore_light obs then recorded else steer c
      else recorded
  | _ => recorded
  end.

Definition recorded_steer (ignore_light : bool) (i : Z) (log : Log) : Q :=
  fold_left (record_steer ignore_light i) log 0%Q.

(** A gain attribute of a reachable object: as configured, or, when none
    was configured, the preset for the target speed. *)
Definition configured_or_preset (attr configured : option Gains) (speed : Q)
    (highway city : Gains) : Prop :=
  attr = configured
  \/ (configured = None /\ attr = Some (spec_gains None speed highway city)).

(** What every reachable object satisfies: its attributes are those of the
    config, no id has two controllers, and every id with a controller has a
    cached steer. *)
Definition consistent (cfg : Config) (self : AutoPolicy) : Prop :=
  _cfg self = cfg
  /\ target_speed self = cfg_target_speed cfg
  /\ _max_throttle self = cfg_max_throttle cfg
  /\ _max_brake self = cfg_max_brake cfg
  /\ _max_steer self = cfg_max_steer cfg
  /\ _ignore_traffic_light self = cfg_ignore_light cfg
  /\ configured_or_preset (_lateral_dict self) (cfg_lateral_dict cfg)
       (cfg_target_speed cfg) DEFAULT_LAT_HW_DICT DEFAULT_LAT_CITY_DICT
  /\ configured_or_preset (_longitudinal_dict self) (cfg_longitudinal_dict cfg)
       (cfg_target_speed cfg) DEFAULT_LONG_HW_DICT DEFAULT_LONG_CITY_DICT
  /\ PyDict.wf (_controller_dict self)
  /\ (forall i, is_Some (controller_of self i) -> is_Some (last_steer_of self i)).

(** The three ways a call of [_forward] goes. *)
Inductive forward_outcome (i : Z) (obs : Obs) (self : AutoPolicy)
  : Result Control * AutoPolicy -> Prop :=
  | outcome_missing :
      controller_of self i = None ->
      forward_outcome i obs self (Raise (KeyError i), self)
  | outcome_emergency c :
      controller_of self i = Some c ->
      emergencyb (_ignore_traffic_light self) obs = true ->
      forward_outcome i obs self (_emergency_stop i self)
  | outcome_tracking c raw c' g' :
      controller_of self i = Some c ->
      emergencyb (_ignore_traffic_light self) obs = false ->
      controller_forward c (speed obs) (location obs) (orientation obs)
        (py_min (target_speed self) (speed_limit obs)) (target obs)
        (np_random self) = (raw, c', g') ->
      let control :=
        if py_gt (steer raw) 0.1 && py_gt (speed obs) 15
        then set_throttle (py_min (throttle raw) 0.3) raw else raw in
      forward_outcome i obs self
        (Ok control,
         set_last_steer_dict (<[i := steer control]> (_last_steer_dict self))
           (set_np_random g'
              (set_controller_dict
                 (PyDict.mutate (_controller_dict self) i c') self))).

(** What mode isolation would mean for a method [op] of one mode: the
    entries the other mode reads for an id are the same before and
    after. *)
Definition leaves_entries_of {A} (op : M A) (i : Z) : Prop :=
  forall self,
    controller_of (snd (op self)) i = controller_of self i
    /\ last_steer_of (snd (op self)) i = last_steer_of self i.

(** Which controllers a reset with the given noise flag may store. *)
Definition stored_by_reset (noise : bool) (c : Controller) : Prop :=
  match c with
  | Plain _ => noise = false
  | SteerNoiseWrapper _ ty lo hi =>
      noise = true /\ ty = "uniform"%string /\ lo = (-0.3)%Q /\ hi = 0.3%Q
  end.

(** Between [self] and [self'] every controller was either kept or stored
    by a reset with the given noise flag. *)
Definition kept_or_stored (noise : bool) (self self' : AutoPolicy) : Prop :=
  forall i c,
    controller_of self' i = Some c ->
    controller_of self i = Some c \/ stored_by_reset noise c.

(** Mode isolation as the spec words it: no reset and no forward through
    the interface of one mode changes, for any id, the controller or the
    cached steer that the methods of the other mode read.  The object has a
    single [_controller_dict] and a single [_last_steer_dict], and the
    methods of both modes read these. *)
Definition mode_isolation : Prop :=
  (forall data_id i, leaves_entries_of (_reset_collect data_id) i)
  /\ (forall data i, leaves_entries_of (_forward_collect data) i)
  /\ (forall data_id i, leaves_entries_of (_reset_eval data_id) i)
  /\ (forall data i, leaves_entries_of (_forward_eval data) i).

(** Both gain attributes are set. *)
Definition resolved (self : AutoPolicy) : Prop :=
  is_Some (_lateral_dict self) /\ is_Some (_longitudinal_dict self).

End Vocabulary.

(* ===================================================================== *)
(** ** A stand-in for [core.models], to run the policy on examples *)
(* ===================================================================== *)

Module Double.

(** A proportional controller: it keeps the arguments of its constructor and
    the sum of the speed errors it has seen. *)
Record PController : Type := mkP {
  args_lateral : option Gains;
  args_longitudinal : option Gains;
  max_throttle : Q;
  max_brake : Q;
  max_steering : Q;
  error_sum : Q;
}.

Definition gain (g : option Gains) : Q :=
  match g with Some g => K_P g | None => 0 end.

Definition clip (x lo hi : Q) : Q :=
  if py_lt x lo then lo else if py_lt hi x then hi else x.

Definition forward (m : PController) (current_speed : Q)
    (current_location current_orientation : Vec3)
    (target_speed : Q) (target_location : Vec3) : Control * PController :=
  let error := (target_speed - current_speed)%Q in
  let acceleration := Qred (gain (args_longitudinal m) * error) in
  let offset := (snd (fst target_location) - snd (fst current_location))%Q in
  let control :=
    {| steer := clip (Qred (gain (args_lateral m) * offset))
                  (- max_steering m) (max_steering m);
       throttle := if py_lt 0 acceleration
                   then py_min acceleration (max_throttle m) else 0;
       brake := if py_lt 0 acceleration
                then 0 else py_min (Qred (- acceleration)) (max_brake m) |} in
  (control,
   mkP (args_lateral m) (args_longitudinal m) (max_throttle m) (max_brake m)
     (max_steering m) (Qred (error_sum m + error))).

(** The generator is a counter; a draw returns the low or the high end of
    the range in turn. *)
#[global] Instance models : CoreModels :=
  {| VehiclePIDController := PController;
     VehiclePIDController_init := fun lat long t b s => mkP lat long t b s 0;
     VehiclePIDController_forward := forward;
     RandomState := nat;
     uniform := fun g lo hi => (if Nat.even g then lo else hi, S g) |}.

Definition origin : Vec3 := (0, 0, 0)%Q.

(** Driving at 20 under a limit of 30, the waypoint half a unit to the
    left, the light green and far away. *)
Definition left_turn : Obs :=
  {| command := 3; agent_state := 1; tl_state := 2; tl_dis := 100;
     speed := 20; location := origin; orientation := (1, 0, 0)%Q;
     target := (5, -0.5, 0)%Q; speed_limit := 30 |}.

(** The same drive with a red light five units ahead. *)
Definition red_light : Obs :=
  {| command := 3; agent_state := 1; tl_state := 0; tl_dis := 5;
     speed := 20; location := origin; orientation := (1, 0, 0)%Q;
     target := (5, -0.5, 0)%Q; speed_limit := 30 |}.

(** A policy with the default config. *)
Definition policy0 : AutoPolicy := __init__ config 0%nat.

(** ... after [reset([0])] in eval mode. *)
Definition policy1 : AutoPolicy := snd (_reset_eval (Some [0]) policy0).

(** A config without explicit gains and with steer noise. *)
Definition config_auto : Config :=
  {| cfg_target_speed := 60;
     cfg_max_brake := 0.3;
     cfg_max_throttle := 0.75;
     cfg_max_steer := 0.8;
     cfg_ignore_light := false;
     cfg_lateral_dict := None;
     cfg_longitudinal_dict := None;
     cfg_noise := true;
     cfg_debug := false |}.

End Double.

(* ===================================================================== *)
(** ** The environment wrappers of [demo/simple_rl/env_wrapper.py] *)
(* ===================================================================== *)

(** The three wrappers extend [BenchmarkEnvWrapper] of [core.envs].  They
    call its [reset], which returns an observation dict, and its [step],
    which takes an action dict and returns a timestep; of the observation
    they read [birdview] and [speed].  [astype_float32] is numpy's cast of
    the speed to single precision. *)
Class BenchmarkEnvWrapper : Type := {
  EnvState : Type;
  Birdview : Type;
  EnvObs : Type;
  TimestepRest : Type;
  obs_birdview : EnvObs -> Birdview;
  obs_speed : EnvObs -> Q;
  super_reset : EnvState -> EnvObs * EnvState;
  super_step : EnvState -> Control -> (EnvObs * TimestepRest) * EnvState;
  astype_float32 : Q -> Q;
}.

Module EnvWrapper.

(** numpy holds an integer action as a 64-bit integer, and the model
    follows its arithmetic there, where [%] and [//] are the floored
    remainder and quotient. *)
Definition int64 (z : Z) : Prop := - 2 ^ 63 <= z < 2 ^ 63.

Definition is_int64 (z : Z) : bool := (- 2 ^ 63 <=? z) && (z <? 2 ^ 63).

(** What a subscript of a dict literal or of an array, or a conversion to
    an array, raises.  [KeyError_outside_int64] is the [KeyError] of an id
    that is no 64-bit integer: numpy computes its key in another type
    (uint64, float64 or Python objects, by its version), and the model does
    not give it. *)
Inductive Error : Type :=
  | KeyError (key : Z)
  | KeyError_outside_int64
  | IndexError (index : Z)
  | OverflowError.

Inductive Outcome (A : Type) : Type :=
  | Done (a : A)
  | Raised (e : Error).
Global Arguments Done {A} a.
Global Arguments Raised {A} e.

(** A dict literal with int keys, and its subscript. *)
Fixpoint dict_literal_get {A} (items : list (Z * A)) (key : Z) : Outcome A :=
  match items with
  | [] => Raised (KeyError key)
  | (k, v) :: items' => if Z.eqb k key then Done v else dict_literal_get items' key
  end.

(** [to_ndarray(a, dtype=int)] of [ding.torch_utils.data_helper], which is
    not under [src/], on a one-dimensional sequence [a] of integers: when
    [a] is not empty and its entries are 64-bit integers, the result is the
    array of these entries.  What it does with an entry outside this range
    (raise [OverflowError] for a Python int, wrap for an unsigned array), or
    with an empty sequence, is left open. *)
Class DataHelper : Type := {
  to_ndarray_int : list Z -> Outcome (list Z);
  to_ndarray_int64 :
    forall a, a <> [] -> Forall int64 a -> to_ndarray_int a = Done a;
}.

(** [np.squeeze(a)[i]] for a one-dimensional array [a]: an array of a single
    element squeezes to a scalar, which takes no index; any other array is
    left as it is, and an index past its end is out of bounds. *)
Definition squeezed_get {A} (a : list A) (i : nat) : Outcome A :=
  match a with
  | [_] => Raised (IndexError (Z.of_nat i))
  | _ =>
      match nth_error a i with
      | Some x => Done x
      | None => Raised (IndexError (Z.of_nat i))
      end
  end.

Section Wrappers.
Context `{BenchmarkEnvWrapper}.

(** The observation dict the wrappers return. *)
Record ObsOut : Type := mkObsOut {
  birdview : Birdview;
  speed : Q;
}.

(** A timestep is a named tuple; [_replace(obs=...)] exchanges its [obs]
    and keeps the other fields. *)
Definition Timestep (O : Type) : Type := O * TimestepRest.

Definition obs_out (obs : EnvObs) : ObsOut :=
  {| birdview := obs_birdview obs;
     speed := astype_float32 (obs_speed obs / 25)%Q |}.

(** The end of every [step]: the parent steps with the action, and the
    observation of its timestep is exchanged. *)
Definition step_with (action : Outcome Control) (env : EnvState)
  : Outcome (Timestep ObsOut) * EnvState :=
  match action with
  | Raised e => (Raised e, env)
  | Done action =>
      let '(timestep, env') := super_step env action in
      let obs := fst timestep in
      (Done (obs_out obs, snd timestep), env')
  end.

(** [reset] is the same method in the three classes. *)
Definition reset (env : EnvState) : ObsOut * EnvState :=
  let '(obs, env') := super_reset env in
  (obs_out obs, env').

End Wrappers.

Module DiscreteBenchmarkEnvWrapper.

(** The dict [action] that [step] builds from the action id.  [id] is the
    integer that [np.squeeze] turns into an array without dimensions; the
    keys [id % 3] and [id // 3] are computed by numpy.  An id outside int64
    is in neither table (its quotient by 3 is far from [0..6]), and the key
    of its [KeyError] is not modelled. *)
Definition step_action (id : Z) : Outcome Control :=
  if is_int64 id then
    match
      dict_literal_get [(0, (0, 1)%Q); (1, (0.25, 0)%Q); (2, (0.75, 0)%Q)] (id mod 3)
    with
    | Raised e => Raised e
    | Done acc =>
        match dict_literal_get
                [(0, (-0.8)%Q); (1, (-0.5)%Q); (2, (-0.2)%Q); (3, 0%Q); (4, 0.2%Q);
                 (5, 0.5%Q); (6, 0.8%Q)]
                (id / 3) with
        | Raised e => Raised e
        | Done steer =>
            Done {| steer := steer; throttle := fst acc; brake := snd acc |}
        end
    end
  else Raised KeyError_outside_int64.

Definition step `{BenchmarkEnvWrapper} (id : Z) (env : EnvState)
  : Outcome (Timestep ObsOut) * EnvState :=
  step_with (step_action id) env.

End DiscreteBenchmarkEnvWrapper.

Module MultiDiscreteBenchmarkEnvWrapper.

(** The dict [action] that [step] builds: the ids are converted by
    [to_ndarray(action_ids, dtype=int)] first, and the keys are read off
    the squeezed array. *)
Definition step_action `{DataHelper} (action_ids : list Z) : Outcome Control :=
  match to_ndarray_int action_ids with
  | Raised e => Raised e
  | Done action_ids =>
      match squeezed_get action_ids 0 with
      | Raised e => Raised e
      | Done acc_id =>
          match squeezed_get action_ids 1 with
          | Raised e => Raised e
          | Done steer_id =>
              match
                dict_literal_get [(0, (0, 1)%Q); (1, (0.3, 0)%Q); (2, (0.75, 0)%Q)] acc_id
              with
              | Raised e => Raised e
              | Done acc =>
                  match dict_literal_get
                          [(0, (-0.8)%Q); (1, (-0.5)%Q); (2, (-0.2)%Q); (3, 0%Q);
                           (4, 0.2%Q); (5, 0.5%Q); (6, 0.8%Q)] steer_id with
                  | Raised e => Raised e
                  | Done steer =>
                      Done {| steer := steer; throttle := fst acc; brake := snd acc |}
                  end
              end
          end
      end
  end.

Definition step `{BenchmarkEnvWrapper} `{DataHelper} (action_ids : list Z)
    (env : EnvState)
  : Outcome (Timestep ObsOut) * EnvState :=
  step_with (step_action action_ids) env.

End MultiDiscreteBenchmarkEnvWrapper.

Module ContinuousBenchmarkEnvWrapper.

Definition step_action (action : list Q) : Outcome Control :=
  match squeezed_get action 0 with
  | Raised e => Raised e
  | Done steer =>
      match squeezed_get action 1 with
      | Raised e => Raised e
      | Done acc =>
          let '(throttle, brake) :=
            if py_gt acc 0 then (acc, 0%Q) else (0%Q, (- acc)%Q) in
          Done {| steer := steer; throttle := throttle; brake := brake |}
      end
  end.

Definition step `{BenchmarkEnvWrapper} (action : list Q) (env : EnvState)
  : Outcome (Timestep ObsOut) * EnvState :=
  step_with (step_action action) env.

End ContinuousBenchmarkEnvWrapper.

End EnvWrapper.

(* ===================================================================== *)
(** ** The collection loop of [demo/implicit/collect_data.py] *)
(* ===================================================================== *)

Module CollectData.
Section Main.

(** The collector is a [CarlaBenchmarkCollector]; [collect(n_episode)]
    returns the list of the episodes it has sampled.  What [main] writes to
    disk is recorded as the list of the episode numbers with the data saved
    under each. *)
Context {Collector Episode : Type}.
Context (collect : Collector -> Z -> list Episode * Collector).

(** The [for] loop over one [new_data]: every episode gets the next number
    and is written; the loop breaks once the count exceeds
    [episode_nums]. *)
Fixpoint write_new_data (episode_nums : Z) (new_data : list Episode)
    (collected_episodes : Z) (written : list (Z * Episode))
  : Z * list (Z * Episode) :=
  match new_data with
  | [] => (collected_episodes, written)
  | data :: new_data' =>
      let collected_episodes := collected_episodes + 1 in
      let written := written ++ [(collected_episodes, data)] in
      if collected_episodes >? episode_nums then (collected_episodes, written)
      else write_new_data episode_nums new_data' collected_episodes written
  end.

(** The [while] loop; [rounds] bounds the number of calls of the collector,
    and [None] says that the bound was reached with the loop still
    running. *)
Fixpoint collect_loop (rounds : nat) (env_num episode_nums : Z)
    (collector : Collector) (collected_episodes : Z) (written : list (Z * Episode))
  : option (Z * list (Z * Episode) * Collector) :=
  if collected_episodes <? episode_nums then
    match rounds with
    | O => None
    | S rounds' =>
        let '(new_data, collector') := collect collector env_num in
        let '(collected_episodes', written') :=
          write_new_data episode_nums new_data collected_episodes written in
        collect_loop rounds' env_num episode_nums collector' collected_episodes' written'
    end
  else Some (collected_episodes, written, collector).

(** [main] from [collected_episodes = 0] on, for a config with the given
    [env_num] and [episode_nums]. *)
Definition main (rounds : nat) (env_num episode_nums : Z) (collector : Collector)
  : option (Z * list (Z * Episode) * Collector) :=
  collect_loop rounds env_num episode_nums collector 0 [].

End Main.
End CollectData.

(* ===================================================================== *)
(** ** Stand-ins for the environment and the collector *)
(* ===================================================================== *)

Module Stubs.

(** The drive of [Double.left_turn] with the waypoint half a unit to the
    right. *)
Definition right_turn : Obs :=
  {| command := 3; agent_state := 1; tl_state := 2; tl_dis := 100;
     speed := 20; location := Double.origin; orientation := (1, 0, 0)%Q;
     target := (5, 0.5, 0)%Q; speed_limit := 30 |}.

(** An environment that records the actions it is stepped with and drives at
    the speed [50] whatever it is told; the cast of the speed is exact. *)
#[global] Instance env : BenchmarkEnvWrapper :=
  {| EnvState := list Control;
     Birdview := unit;
     EnvObs := Q;
     TimestepRest := unit;
     obs_birdview := fun _ => tt;
     obs_speed := fun obs => obs;
     super_reset := fun _ => (0%Q, []);
     super_step := fun actions action => ((50%Q, tt), actions ++ [action]);
     astype_float32 := Qred |}.

(** The conversion of a list of Python ints: [np.array(a, dtype=int)], which
    raises [OverflowError] for an int that does not fit. *)
Definition to_ndarray_list (a : list Z) : EnvWrapper.Outcome (list Z) :=
  if forallb EnvWrapper.is_int64 a then EnvWrapper.Done a
  else EnvWrapper.Raised EnvWrapper.OverflowError.

Lemma to_ndarray_list_int64 (a : list Z) :
  a <> [] -> Forall EnvWrapper.int64 a -> to_ndarray_list a = EnvWrapper.Done a.
Proof.
  intros _ Ha. unfold to_ndarray_list.
  assert (forallb EnvWrapper.is_int64 a = true) as ->; [|done].
  apply forallb_forall. intros z Hz. apply Forall_forall with (x := z) in Ha.
  - unfold EnvWrapper.int64 in Ha. unfold EnvWrapper.is_int64.
    apply andb_true_intro. split; [apply Z.leb_le | apply Z.ltb_lt]; lia.
  - by apply list_elem_of_In.
Qed.

#[global] Instance data_helper : EnvWrapper.DataHelper :=
  {| EnvWrapper.to_ndarray_int := to_ndarray_list;
     EnvWrapper.to_ndarray_int64 := to_ndarray_list_int64 |}.

(** A collector that counts its calls and returns as many episodes as it is
    asked for, each marked with the number of the call. *)
Definition collect (calls : nat) (n_episode : Z) : list nat * nat :=
  (repeat calls (Z.to_nat n_episode), S calls).

End Stubs.

(* ===================================================================== *)
(** ** Facts about the dict model *)
(* ===================================================================== *)

Module PyDictFacts.
Import PyDict.
Section Facts.
Context {V : Type}.
Implicit Types (es : list (option (Z * V))) (d : PyDict.t V) (k j : Z) (v : V).

Lemma keys_live d : keys d = live_keys (dk_entries d).
Proof. reflexivity. Qed.

Lemma lookup_entries_None es k :
  lookup_entries es k = None <-> k ∉ live_keys es.
Proof.
  unfold live_keys. induction es as [|[[k' v']|] es IH]; simpl.
  - split; [intros _; apply not_elem_of_nil | done].
  - destruct (Z.eqb_spec k' k) as [->|Hne].
    + split; [done | intros Hn; exfalso; apply Hn; left].
    + rewrite IH, not_elem_of_cons. split; [by intros ?; split | by intros [_ ?]].
  - exact IH.
Qed.

Lemma lookup_entries_Some_elem es k v :
  lookup_entries es k = Some v -> k ∈ live_keys es.
Proof.
  intros Hl. destruct (decide (k ∈ live_keys es)) as [|Hn]; [done|].
  apply lookup_entries_None in Hn. congruence.
Qed.

Lemma lookup_delete_ne es k j :
  j <> k -> lookup_entries (delete_entry es k) j = lookup_entries es j.
Proof.
  intros Hne. induction es as [|[[k' v']|] es IH]; simpl; [done| |done].
  destruct (Z.eqb_spec k' k) as [->|Hk]; simpl.
  - destruct (Z.eqb_spec k j); [congruence | done].
  - by rewrite IH.
Qed.

Lemma live_keys_delete_notin es k :
  k ∉ live_keys es -> delete_entry es k = es.
Proof.
  unfold live_keys. induction es as [|[[k' v']|] es IH]; simpl; [done| |].
  - rewrite not_elem_of_cons. intros [Hne Hn].
    destruct (Z.eqb_spec k' k); [congruence|]. by rewrite IH.
  - intros Hn. by rewrite IH.
Qed.

Lemma live_keys_delete_sub es k : live_keys (delete_entry es k) ⊆ live_keys es.
Proof.
  unfold live_keys. induction es as [|[[k' v']|] es IH]; simpl; [done| |done].
  destruct (Z.eqb_spec k' k); simpl.
  - intros x Hx. by right.
  - intros x. rewrite !elem_of_cons. intros [->|Hx]; [by left|right; by apply IH].
Qed.

Lemma NoDup_delete es k :
  NoDup (live_keys es) ->
  NoDup (live_keys (delete_entry es k)) /\ k ∉ live_keys (delete_entry es k).
Proof.
  unfold live_keys. induction es as [|[[k' v']|] es IH]; simpl.
  - intros _. split; [constructor | apply not_elem_of_nil].
  - intros [Hn Hnd]%NoDup_cons. destruct (Z.eqb_spec k' k) as [->|Hk]; simpl.
    + done.
    + destruct (IH Hnd) as [IH1 IH2]. split.
      * apply NoDup_cons. split; [|done].
        intros Hin. apply Hn. by apply (live_keys_delete_sub es k).
      * rewrite not_elem_of_cons. done.
  - exact IH.
Qed.

Lemma lookup_replace_ne es k j v :
  j <> k -> lookup_entries (replace_entry es k v) j = lookup_entries es j.
Proof.
  intros Hne. induction es as [|[[k' v']|] es IH]; simpl; [done| |done].
  destruct (Z.eqb_spec k' k) as [->|Hk]; simpl.
  - destruct (Z.eqb_spec k j); [congruence | done].
  - by rewrite IH.
Qed.

Lemma lookup_replace_eq es k v :
  lookup_entries (replace_entry es k v) k = (fun _ => v) <$> lookup_entries es k.
Proof.
  induction es as [|[[k' v']|] es IH]; simpl; [done| |done].
  destruct (Z.eqb_spec k' k) as [->|Hk]; simpl.
  - by rewrite Z.eqb_refl.
  - destruct (Z.eqb_spec k' k); [congruence | done].
Qed.

Lemma live_keys_replace es k v : live_keys (replace_entry es k v) = live_keys es.
Proof.
  unfold live_keys. induction es as [|[[k' v']|] es IH]; csimpl; [done| |done].
  destruct (Z.eqb_spec k' k); csimpl; [done | by rewrite IH].
Qed.

Lemma lookup_entries_app es es' k :
  lookup_entries (es ++ es') k =
    match lookup_entries es k with
    | Some v => Some v
    | None => lookup_entries es' k
    end.
Proof.
  induction es as [|[[k' v']|] es IH]; simpl; [done| |done].
  by destruct (Z.eqb_spec k' k).
Qed.

Lemma live_keys_app es es' : live_keys (es ++ es') = live_keys es ++ live_keys es'.
Proof. unfold live_keys. by rewrite omap_app, fmap_app. Qed.

Lemma lookup_compact es k :
  lookup_entries (Some <$> omap id es) k = lookup_entries es k.
Proof.
  induction es as [|[[k' v']|] es IH]; csimpl; [done| |done].
  by rewrite IH.
Qed.

Lemma live_keys_compact es : live_keys (Some <$> omap id es) = live_keys es.
Proof.
  unfold live_keys. induction es as [|[[k' v']|] es IH]; csimpl; [done| |done].
  by rewrite IH.
Qed.

(** *** The operations, by key *)

Lemma contains_true d k : contains d k = true <-> is_Some (getitem d k).
Proof.
  unfold contains. destruct (getitem d k); split; done.
Qed.

Lemma contains_false d k : contains d k = false <-> getitem d k = None.
Proof. unfold contains. by destruct (getitem d k). Qed.

Lemma getitem_None d k : getitem d k = None <-> k ∉ keys d.
Proof. apply lookup_entries_None. Qed.

Lemma getitem_empty k : getitem (@empty V) k = None.
Proof. reflexivity. Qed.

Lemma wf_empty : wf (@empty V).
Proof. constructor. Qed.

Lemma getitem_mutate_ne d k j v : j <> k -> getitem (mutate d k v) j = getitem d j.
Proof. apply lookup_replace_ne. Qed.

Lemma getitem_mutate_eq d k v : getitem (mutate d k v) k = (fun _ => v) <$> getitem d k.
Proof. apply lookup_replace_eq. Qed.

Lemma keys_mutate d k v : keys (mutate d k v) = keys d.
Proof. apply live_keys_replace. Qed.

Lemma pop_contains d k : contains d k = true -> is_Some (pop d k).
Proof.
  intros [v Hv]%contains_true. unfold pop. rewrite Hv. by eexists.
Qed.

Lemma getitem_pop_ne d d' k j v :
  pop d k = Some (v, d') -> j <> k -> getitem d' j = getitem d j.
Proof.
  unfold pop. destruct (getitem d k); [|done].
  intros [= _ <-] Hne. by apply lookup_delete_ne.
Qed.

Lemma pop_wf d d' k v :
  pop d k = Some (v, d') -> wf d -> wf d' /\ getitem d' k = None.
Proof.
  unfold pop. destruct (getitem d k); [|done].
  intros [= _ <-] Hwf. rewrite getitem_None.
  by apply NoDup_delete.
Qed.

Lemma getitem_resize d k : getitem (insertion_resize d) k = getitem d k.
Proof. apply lookup_compact. Qed.

Lemma keys_resize d : keys (insertion_resize d) = keys d.
Proof. apply live_keys_compact. Qed.

Lemma getitem_setitem_eq d k v : getitem (setitem d k v) k = Some v.
Proof.
  unfold setitem. destruct (contains d k) eqn:Hc.
  - rewrite getitem_mutate_eq. apply contains_true in Hc as [? ->]. done.
  - apply contains_false in Hc. unfold getitem in *. simpl.
    rewrite lookup_entries_app.
    assert (lookup_entries
              (dk_entries (if dk_usable d <=? 0 then insertion_resize d else d)) k
            = None) as ->.
    { destruct (dk_usable d <=? 0); [|done]. exact (eq_trans (getitem_resize d k) Hc). }
    simpl. by rewrite Z.eqb_refl.
Qed.

Lemma getitem_setitem_ne d k j v : j <> k -> getitem (setitem d k v) j = getitem d j.
Proof.
  intros Hne. unfold setitem. destruct (contains d k) eqn:Hc.
  - by apply getitem_mutate_ne.
  - unfold getitem. simpl. rewrite lookup_entries_app. simpl.
    destruct (Z.eqb_spec k j) as [|_]; [congruence|].
    assert (lookup_entries
              (dk_entries (if dk_usable d <=? 0 then insertion_resize d else d)) j
            = lookup_entries (dk_entries d) j) as ->.
    { destruct (dk_usable d <=? 0); [|done]. exact (getitem_resize d j). }
    by destruct (lookup_entries (dk_entries d) j).
Qed.

Lemma keys_setitem d k v :
  keys (setitem d k v) = if contains d k then keys d else keys d ++ [k].
Proof.
  unfold setitem. destruct (contains d k) eqn:Hc.
  - apply keys_mutate.
  - rewrite !keys_live. simpl. rewrite live_keys_app.
    assert (live_keys (dk_entries (if dk_usable d <=? 0 then insertion_resize d else d))
            = live_keys (dk_entries d)) as ->.
    { destruct (dk_usable d <=? 0); [|done]. exact (keys_resize d). }
    done.
Qed.

Lemma setitem_wf d k v : wf d -> wf (setitem d k v).
Proof.
  unfold wf. rewrite keys_setitem. destruct (contains d k) eqn:Hc; [done|].
  intros Hnd. apply NoDup_app. split; [done|]. split.
  - intros x Hx Hin. apply list_elem_of_singleton in Hin as ->.
    apply contains_false, getitem_None in Hc. done.
  - apply NoDup_singleton.
Qed.

Lemma mutate_wf d k v : wf d -> wf (mutate d k v).
Proof. unfold wf. by rewrite keys_mutate. Qed.

Lemma filter_eq_notin (l : list Z) k :
  k ∉ l -> filter (fun x => x = k) l = [].
Proof.
  induction l as [|x l IH]; [done|].
  rewrite not_elem_of_cons. intros [Hne Hn]. rewrite filter_cons.
  destruct (decide (x = k)); [congruence | by apply IH].
Qed.

(** A key of a well-formed dict occurs once among its keys. *)
Lemma NoDup_count_one (l : list Z) k :
  NoDup l -> k ∈ l -> length (filter (fun x => x = k) l) = 1%nat.
Proof.
  induction l as [|x l IH]; [by intros _ ?%elem_of_nil|].
  intros [Hn Hnd]%NoDup_cons Hin. rewrite filter_cons.
  destruct (decide (x = k)) as [->|Hne]; simpl.
  - by rewrite filter_eq_notin.
  - apply IH; [done|]. apply elem_of_cons in Hin as [->|]; done.
Qed.

End Facts.

(** The table after [d[0] = v], [d.pop(0)], [d[0] = v]: the popped entry is
    a dummy, the key sits in a new entry, one more entry is used up. *)
Example pop_then_insert_appends :
  let d := setitem (@empty unit) 0 tt in
  d = mk [Some (0, tt)] 4
  /\ (snd <$> pop d 0) = Some (mk [None] 4)
  /\ ((fun p => setitem (snd p) 0 tt) <$> pop d 0) = Some (mk [None; Some (0, tt)] 3).
Proof. vm_compute. repeat split; reflexivity. Qed.

(** An insertion with no usable entry left rebuilds the table without its
    dummies; with one live entry the new table has sixteen slots. *)
Example insert_rebuilds_full_table :
  setitem (mk [None; None; None; None; Some (1, tt)] 0) 0 tt
  = mk [Some (1, tt); Some (0, tt)] 8.
Proof. vm_compute. reflexivity. Qed.

End PyDictFacts.

(* ===================================================================== *)
(** ** Facts about the policy *)
(* ===================================================================== *)

Section PythonFacts.

Lemma py_lt_iff a b : py_lt a b = true <-> (a < b)%Q.
Proof.
  unfold py_lt. rewrite negb_true_iff. split.
  - intros Hb. apply Qnot_le_lt. intros Hle.
    apply Qle_bool_iff in Hle. congruence.
  - intros Hlt. destruct (Qle_bool b a) eqn:Hb; [|done].
    apply Qle_bool_iff in Hb. exfalso. by apply (Qlt_not_le a b).
Qed.

Lemma py_lt_false a b : py_lt a b = false <-> (b <= a)%Q.
Proof.
  unfold py_lt. rewrite negb_false_iff. apply Qle_bool_iff.
Qed.

Lemma py_gt_iff a b : py_gt a b = true <-> (b < a)%Q.
Proof. apply py_lt_iff. Qed.

(** Python's [min] of two numbers is the smaller one. *)
Lemma py_min_Qmin a b : py_min a b = Qmin a b.
Proof.
  unfold py_min, Qmin, GenericMinMax.gmin.
  destruct (py_lt b a) eqn:Hlt.
  - apply py_lt_iff in Hlt. apply Qgt_alt in Hlt. by rewrite Hlt.
  - apply py_lt_false in Hlt. pose proof (proj1 (Qle_alt a b) Hlt) as Hc.
    destruct (a ?= b)%Q; congruence.
Qed.

Lemma py_min_le_r a b : (py_min a b <= b)%Q.
Proof.
  unfold py_min. destruct (py_lt b a) eqn:Hlt.
  - apply Qle_refl.
  - by apply py_lt_false in Hlt.
Qed.

Lemma py_truth_abs b : py_truth (py_abs_bool b) = b.
Proof. by destruct b. Qed.

Lemma emergencyb_iff ignore_light obs :
  emergencyb ignore_light obs = true <-> emergency ignore_light obs.
Proof.
  unfold emergencyb, emergency.
  rewrite !orb_true_iff, !andb_true_iff, !negb_true_iff, !Z.eqb_eq, py_lt_iff.
  tauto.
Qed.

Lemma emergencyb_false ignore_light obs :
  emergencyb ignore_light obs = false <-> ~ emergency ignore_light obs.
Proof.
  rewrite <- emergencyb_iff. by destruct (emergencyb ignore_light obs).
Qed.

End PythonFacts.

Section PolicyFacts.
Context `{CoreModels}.

(** *** One call of [_emergency_stop], [_forward], [_reset] *)

Lemma _emergency_stop_eq i self :
  _emergency_stop i self =
    match last_steer_of self i with
    | Some q => (Ok {| steer := q; throttle := 0.0; brake := 1.0 |}, self)
    | None => (Raise (KeyError i), self)
    end.
Proof.
  unfold _emergency_stop, last_steer_of, bind, get, subscript.
  by destruct (_last_steer_dict self !! i).
Qed.

Lemma _forward_no_controller i obs self :
  controller_of self i = None -> _forward i obs self = (Raise (KeyError i), self).
Proof.
  unfold controller_of, _forward, bind, get, subscript. by intros ->.
Qed.

Lemma _forward_emergency i obs self c :
  controller_of self i = Some c ->
  emergencyb (_ignore_traffic_light self) obs = true ->
  _forward i obs self = _emergency_stop i self.
Proof.
  unfold controller_of, _forward, emergencyb, bind, get, subscript, ret.
  intros -> He.
  destruct (command obs =? -1); [done|].
  destruct ((agent_state obs =? 2) || (agent_state obs =? 3)); [done|].
  destruct (negb (_ignore_traffic_light self) && (agent_state obs =? 4)); [done|].
  destruct (negb (_ignore_traffic_light self) && (tl_state obs =? 0)
            && py_lt (tl_dis obs) 10); [done|].
  done.
Qed.

(** The state a tracking step leaves: the controller advanced, the
    generator after the draw, the steer cached. *)
Lemma _forward_tracking i obs self c :
  controller_of self i = Some c ->
  emergencyb (_ignore_traffic_light self) obs = false ->
  _forward i obs self =
    let '(raw, c', g') :=
      controller_forward c (speed obs) (location obs) (orientation obs)
        (py_min (target_speed self) (speed_limit obs)) (target obs)
        (np_random self) in
    let control :=
      if py_gt (steer raw) 0.1 && py_gt (speed obs) 15
      then set_throttle (py_min (throttle raw) 0.3) raw else raw in
    (Ok control,
     set_last_steer_dict (<[i := steer control]> (_last_steer_dict self))
       (set_np_random g'
          (set_controller_dict (PyDict.mutate (_controller_dict self) i c') self))).
Proof.
  unfold controller_of, _forward, emergencyb, bind, get, subscript, ret.
  intros -> He.
  destruct (command obs =? -1); [done|].
  destruct ((agent_state obs =? 2) || (agent_state obs =? 3)); [done|].
  destruct (negb (_ignore_traffic_light self) && (agent_state obs =? 4)); [done|].
  destruct (negb (_ignore_traffic_light self) && (tl_state obs =? 0)
            && py_lt (tl_dis obs) 10); [done|].
  unfold call_forward, modify.
  destruct (controller_forward _ _ _ _ _ _ _) as [[raw c'] g'].
  by rewrite py_truth_abs.
Qed.

(** [_reset] always returns; this is the object it leaves. *)
Lemma _reset_eq i noise self :
  exists d1,
    (PyDict.contains (_controller_dict self) i = false /\ d1 = _controller_dict self
     \/ exists v, PyDict.pop (_controller_dict self) i = Some (v, d1)) /\
    let lat :=
      match _lateral_dict self with
      | Some g => g
      | None => if py_gt (target_speed self) 50
                then DEFAULT_LAT_HW_DICT else DEFAULT_LAT_CITY_DICT
      end in
    let long :=
      match _longitudinal_dict self with
      | Some g => g
      | None => if py_gt (target_speed self) 50
                then DEFAULT_LONG_HW_DICT else DEFAULT_LONG_CITY_DICT
      end in
    _reset i noise self =
      (Ok tt,
       {| _cfg := _cfg self;
          _controller_dict :=
            PyDict.setitem d1 i
              (wrap noise
                 (VehiclePIDController_init (Some lat) (Some long)
                    (_max_throttle self) (_max_brake self) (_max_steer self)));
          _last_steer_dict := <[i := 0%Q]> (_last_steer_dict self);
          target_speed := target_speed self;
          _max_brake := _max_brake self;
          _max_throttle := _max_throttle self;
          _max_steer := _max_steer self;
          _ignore_traffic_light := _ignore_traffic_light self;
          _lateral_dict := Some lat;
          _longitudinal_dict := Some long;
          _debug := _debug self;
          np_random := np_random self |}).
Proof.
  destruct self as [cfg d ls ts mb mt ms ig lat long dbg g].
  unfold _reset, bind, get, when, modify, subscript, ret, wrap. simpl.
  destruct (PyDict.contains d i) eqn:Hc.
  - destruct (PyDictFacts.pop_contains _ _ Hc) as [[v d1] Hpop].
    exists d1. split; [right; by exists v|].
    rewrite Hpop.
    destruct (py_gt ts 50) eqn:Hgt, lat, long, noise; simpl;
      rewrite ?Hgt; simpl; rewrite ?Hgt; reflexivity.
  - exists d. split; [by left|].
    destruct (py_gt ts 50) eqn:Hgt, lat, long, noise; simpl;
      rewrite ?Hgt; simpl; rewrite ?Hgt; reflexivity.
Qed.

Lemma _reset_ok i noise self : fst (_reset i noise self) = Ok tt.
Proof. destruct (_reset_eq i noise self) as (d1 & _ & ->). done. Qed.

Lemma _reset_attributes i noise self :
  let self' := snd (_reset i noise self) in
  _cfg self' = _cfg self /\ target_speed self' = target_speed self
  /\ _max_throttle self' = _max_throttle self /\ _max_brake self' = _max_brake self
  /\ _max_steer self' = _max_steer self
  /\ _ignore_traffic_light self' = _ignore_traffic_light self
  /\ np_random self' = np_random self.
Proof. destruct (_reset_eq i noise self) as (d1 & _ & ->). done. Qed.

Lemma preset_choice {A} (speed : Q) (a b : A) :
  (if py_gt speed 50 then a else b) = (if Qlt_le_dec 50 speed then a else b).
Proof.
  destruct (Qlt_le_dec 50 speed) as [Hlt|Hle].
  - apply py_gt_iff in Hlt. by rewrite Hlt.
  - apply py_lt_false in Hle. unfold py_gt. by rewrite Hle.
Qed.

(** The gains [_reset] settles on: the attribute if it is set, else the
    preset. *)
Lemma _reset_gains i noise self :
  let self' := snd (_reset i noise self) in
  _lateral_dict self' =
    Some (spec_gains (_lateral_dict self) (target_speed self)
            DEFAULT_LAT_HW_DICT DEFAULT_LAT_CITY_DICT)
  /\ _longitudinal_dict self' =
    Some (spec_gains (_longitudinal_dict self) (target_speed self)
            DEFAULT_LONG_HW_DICT DEFAULT_LONG_CITY_DICT).
Proof.
  destruct (_reset_eq i noise self) as (d1 & _ & ->). simpl.
  unfold spec_gains. rewrite <- !preset_choice. done.
Qed.

Lemma _reset_controller i noise self :
  let self' := snd (_reset i noise self) in
  controller_of self' i = Some (wrap noise (fresh_model self')).
Proof.
  destruct (_reset_eq i noise self) as (d1 & _ & ->). simpl.
  unfold controller_of, fresh_model. simpl.
  apply PyDictFacts.getitem_setitem_eq.
Qed.

Lemma _reset_last_steer i noise self :
  last_steer_of (snd (_reset i noise self)) i = Some 0%Q.
Proof.
  destruct (_reset_eq i noise self) as (d1 & _ & ->). simpl.
  unfold last_steer_of. simpl. apply lookup_insert_eq.
Qed.

Lemma _reset_frame i noise self j :
  j <> i ->
  controller_of (snd (_reset i noise self)) j = controller_of self j
  /\ last_steer_of (snd (_reset i noise self)) j = last_steer_of self j.
Proof.
  intros Hne. destruct (_reset_eq i noise self) as (d1 & Hd1 & ->). simpl.
  unfold controller_of, last_steer_of. simpl. split.
  - rewrite PyDictFacts.getitem_setitem_ne by done.
    destruct Hd1 as [[_ ->]|[v Hpop]]; [done|].
    by apply (PyDictFacts.getitem_pop_ne _ _ _ _ _ Hpop).
  - by apply lookup_insert_ne.
Qed.

Lemma _reset_wf i noise self :
  PyDict.wf (_controller_dict self) ->
  PyDict.wf (_controller_dict (snd (_reset i noise self)))
  /\ instances (_controller_dict (snd (_reset i noise self))) i = 1%nat.
Proof.
  intros Hwf. destruct (_reset_eq i noise self) as (d1 & Hd1 & ->). simpl.
  assert (PyDict.wf d1) as Hwf1.
  { destruct Hd1 as [[_ ->]|[v Hpop]]; [done|].
    by destruct (PyDictFacts.pop_wf _ _ _ _ Hpop Hwf). }
  assert (PyDict.wf (PyDict.setitem d1 i
            (wrap noise (VehiclePIDController_init
               (Some match _lateral_dict self with
                     | Some g => g
                     | None => if py_gt (target_speed self) 50
                               then DEFAULT_LAT_HW_DICT else DEFAULT_LAT_CITY_DICT
                     end)
               (Some match _longitudinal_dict self with
                     | Some g => g
                     | None => if py_gt (target_speed self) 50
                               then DEFAULT_LONG_HW_DICT else DEFAULT_LONG_CITY_DICT
                     end)
               (_max_throttle self) (_max_brake self) (_max_steer self)))))
    as Hwf2 by by apply PyDictFacts.setitem_wf.
  split; [done|]. unfold instances.
  apply PyDictFacts.NoDup_count_one; [done|].
  eapply PyDictFacts.lookup_entries_Some_elem.
  apply PyDictFacts.getitem_setitem_eq.
Qed.

Lemma _forward_outcome i obs self : forward_outcome i obs self (_forward i obs self).
Proof.
  destruct (controller_of self i) as [c|] eqn:Hc.
  - destruct (emergencyb (_ignore_traffic_light self) obs) eqn:He.
    + rewrite (_forward_emergency _ _ _ _ Hc He). by eapply outcome_emergency.
    + rewrite (_forward_tracking _ _ _ _ Hc He).
      destruct (controller_forward _ _ _ _ _ _ _) as [[raw c'] g'] eqn:Hf.
      by eapply outcome_tracking.
  - rewrite (_forward_no_controller _ _ _ Hc). by apply outcome_missing.
Qed.

Lemma _emergency_stop_state i self : snd (_emergency_stop i self) = self.
Proof. rewrite _emergency_stop_eq. by destruct (last_steer_of self i). Qed.

Lemma _forward_attributes i obs self :
  let self' := snd (_forward i obs self) in
  _cfg self' = _cfg self /\ target_speed self' = target_speed self
  /\ _max_throttle self' = _max_throttle self /\ _max_brake self' = _max_brake self
  /\ _max_steer self' = _max_steer self
  /\ _ignore_traffic_light self' = _ignore_traffic_light self
  /\ _lateral_dict self' = _lateral_dict self
  /\ _longitudinal_dict self' = _longitudinal_dict self
  /\ PyDict.keys (_controller_dict self') = PyDict.keys (_controller_dict self).
Proof.
  destruct (_forward_outcome i obs self); simpl;
    rewrite ?_emergency_stop_state; try done.
  by rewrite PyDictFacts.keys_mutate.
Qed.

Lemma _forward_frame i obs self j :
  j <> i ->
  controller_of (snd (_forward i obs self)) j = controller_of self j
  /\ last_steer_of (snd (_forward i obs self)) j = last_steer_of self j.
Proof.
  intros Hne. destruct (_forward_outcome i obs self); simpl;
    rewrite ?_emergency_stop_state; try done.
  unfold controller_of, last_steer_of. simpl. split.
  - by apply PyDictFacts.getitem_mutate_ne.
  - by apply lookup_insert_ne.
Qed.

Lemma is_Some_getitem_keys (d d' : PyDict.t Controller) k :
  PyDict.keys d' = PyDict.keys d ->
  is_Some (PyDict.getitem d' k) -> is_Some (PyDict.getitem d k).
Proof.
  intros Hk Hs. apply not_eq_None_Some. intros Hn.
  apply PyDictFacts.getitem_None in Hn. rewrite <- Hk in Hn.
  apply PyDictFacts.getitem_None in Hn. rewrite Hn in Hs. by destruct Hs.
Qed.

Lemma _forward_cached i obs self k :
  is_Some (last_steer_of self k) -> is_Some (last_steer_of (snd (_forward i obs self)) k).
Proof.
  intros Hs. destruct (_forward_outcome i obs self); simpl;
    rewrite ?_emergency_stop_state; try done.
  unfold last_steer_of in *. simpl.
  rewrite lookup_insert. by case_decide.
Qed.

(** *** Reachable objects are consistent *)

Lemma __init___eq cfg g :
  __init__ cfg g =
    {| _cfg := cfg;
       _controller_dict := PyDict.empty;
       _last_steer_dict := ∅;
       target_speed := cfg_target_speed cfg;
       _max_brake := cfg_max_brake cfg;
       _max_throttle := cfg_max_throttle cfg;
       _max_steer := cfg_max_steer cfg;
       _ignore_traffic_light := cfg_ignore_light cfg;
       _lateral_dict := cfg_lateral_dict cfg;
       _longitudinal_dict := cfg_longitudinal_dict cfg;
       _debug := cfg_debug cfg;
       np_random := g |}.
Proof. reflexivity. Qed.

Lemma consistent_init cfg self : _cfg self = cfg -> consistent cfg (snd (_init self)).
Proof.
  intros <-. unfold consistent, _init, modify, controller_of. simpl.
  repeat split; try done; try by left.
  intros i [? Hs]. done.
Qed.

Lemma consistent___init__ cfg g : consistent cfg (__init__ cfg g).
Proof.
  rewrite __init___eq. unfold consistent, controller_of. simpl.
  repeat split; try done; try by left.
  intros i [? Hs]. done.
Qed.

Lemma configured_or_preset_reset attr configured speed hw city :
  configured_or_preset attr configured speed hw city ->
  configured_or_preset (Some (spec_gains attr speed hw city)) configured speed hw city
  /\ spec_gains attr speed hw city = spec_gains configured speed hw city.
Proof.
  intros [->|[-> ->]].
  - destruct configured as [g|]; simpl; [by split; [left|]|].
    split; [by right|done].
  - simpl. split; [by right|done].
Qed.

Lemma consistent_reset cfg i noise self :
  consistent cfg self -> consistent cfg (snd (_reset i noise self)).
Proof.
  intros (Hcfg & Hts & Hmt & Hmb & Hms & Hig & Hlat & Hlong & Hwf & Hcache).
  destruct (_reset_attributes i noise self) as (E1 & E2 & E3 & E4 & E5 & E6 & _).
  destruct (_reset_gains i noise self) as [G1 G2].
  unfold consistent. rewrite E1, E2, E3, E4, E5, E6, G1, G2, Hts.
  repeat split; try done.
  - by apply configured_or_preset_reset.
  - by apply configured_or_preset_reset.
  - by apply _reset_wf.
  - intros k Hk. destruct (decide (k = i)) as [->|Hne].
    + rewrite _reset_last_steer. by eexists.
    + destruct (_reset_frame i noise self k Hne) as [F1 F2].
      rewrite F2. apply Hcache. by rewrite <- F1.
Qed.

Lemma consistent_forward cfg i obs self :
  consistent cfg self -> consistent cfg (snd (_forward i obs self)).
Proof.
  intros (Hcfg & Hts & Hmt & Hmb & Hms & Hig & Hlat & Hlong & Hwf & Hcache).
  destruct (_forward_attributes i obs self)
    as (E1 & E2 & E3 & E4 & E5 & E6 & E7 & E8 & E9).
  unfold consistent. rewrite E1, E2, E3, E4, E5, E6, E7, E8.
  repeat split; try done.
  - unfold PyDict.wf. by rewrite E9.
  - intros k Hk. apply _forward_cached, Hcache.
    by apply (is_Some_getitem_keys _ _ _ E9).
Qed.

Lemma run_call_state c self :
  snd (run_call c self) =
    match c with
    | CallInit => snd (_init self)
    | CallReset i noise => snd (_reset i noise self)
    | CallForward i obs => snd (_forward i obs self)
    end.
Proof.
  destruct c as [|i noise|i obs]; unfold run_call, bind, ret.
  - done.
  - by destruct (_reset i noise self) as [[|] ?].
  - by destruct (_forward i obs self) as [[|] ?].
Qed.

Lemma consistent_run_call cfg c self :
  consistent cfg self -> consistent cfg (snd (run_call c self)).
Proof.
  intros Hc. rewrite run_call_state. destruct c.
  - apply consistent_init. by destruct Hc.
  - by apply consistent_reset.
  - by apply consistent_forward.
Qed.

Lemma consistent_run_calls cfg calls self :
  consistent cfg self -> consistent cfg (snd (run_calls calls self)).
Proof.
  revert self. induction calls as [|c calls IH]; intros self Hc; [done|].
  simpl. pose proof (consistent_run_call cfg c self Hc) as Hc'.
  destruct (run_call c self) as [r self']. simpl in Hc'.
  specialize (IH self' Hc'). by destruct (run_calls calls self').
Qed.

Lemma reachable_consistent cfg self : reachable cfg self -> consistent cfg self.
Proof.
  intros (g & calls & ->). apply consistent_run_calls, consistent___init__.
Qed.

(** *** The cache holds what the history recorded *)

Lemma recorded_step ign c self (q : Z -> Q) :
  _ignore_traffic_light self = ign ->
  cfg_ignore_light (_cfg self) = ign ->
  (forall i, is_Some (controller_of self i) -> last_steer_of self i = Some (q i)) ->
  _ignore_traffic_light (snd (run_call c self)) = ign
  /\ cfg_ignore_light (_cfg (snd (run_call c self))) = ign
  /\ (forall i, is_Some (controller_of (snd (run_call c self)) i) ->
        last_steer_of (snd (run_call c self)) i
        = Some (record_steer ign i (q i) (c, fst (run_call c self)))).
Proof.
  intros Hig Hcfg Hq. destruct c as [|j noise|j obs]; unfold run_call, bind, ret.
  - simpl. repeat split; try done. intros i [? Hs]. done.
  - destruct (_reset_attributes j noise self) as (E1 & _ & _ & _ & _ & E6 & _).
    pose proof (_reset_ok j noise self) as Hok.
    pose proof (_reset_last_steer j noise self) as Hls.
    pose proof (_reset_frame j noise self) as Hfr.
    destruct (_reset j noise self) as [r self']. simpl in *. subst r. simpl.
    rewrite E1, E6. repeat split; try done.
    intros i Hi. destruct (decide (j = i)) as [->|Hne]; [done|].
    destruct (Hfr i) as [F1 F2]; [done|]. rewrite F2. apply Hq. by rewrite <- F1.
  - destruct (_forward_outcome j obs self) as [Hc|c Hc He|c raw c' g' Hc He Hf control].
    + simpl. repeat split; done.
    + rewrite _emergency_stop_eq.
      destruct (last_steer_of self j) as [last|] eqn:Hl; simpl.
      * repeat split; try done. intros i Hi. rewrite Hig in He. rewrite He.
        rewrite (Hq i Hi). by destruct (decide (j = i)).
      * repeat split; done.
    + simpl. repeat split; try done. intros i Hi.
      rewrite Hig in He. rewrite He.
      unfold last_steer_of, controller_of in *. simpl in *.
      destruct (decide (j = i)) as [->|Hne].
      * apply lookup_insert_eq.
      * rewrite lookup_insert_ne by done. apply Hq.
        by rewrite PyDictFacts.getitem_mutate_ne in Hi.
Qed.

Lemma recorded_run_calls ign calls :
  forall self (q : Z -> Q),
    _ignore_traffic_light self = ign ->
    cfg_ignore_light (_cfg self) = ign ->
    (forall i, is_Some (controller_of self i) -> last_steer_of self i = Some (q i)) ->
    forall i, is_Some (controller_of (snd (run_calls calls self)) i) ->
      last_steer_of (snd (run_calls calls self)) i
      = Some (fold_left (record_steer ign i) (fst (run_calls calls self)) (q i)).
Proof.
  induction calls as [|c calls IH]; intros self q Hig Hcfg Hq i Hi; simpl in *.
  - by apply Hq.
  - destruct (recorded_step ign c self q Hig Hcfg Hq) as (Hig' & Hcfg' & Hq').
    destruct (run_call c self) as [r self']. simpl in *.
    specialize (IH self' (fun i => record_steer ign i (q i) (c, r)) Hig' Hcfg' Hq' i).
    destruct (run_calls calls self') as [log self'']. simpl in *.
    by apply IH.
Qed.

(** *** Loops *)

Lemma _forward_raises i obs self e :
  fst (_forward i obs self) = Raise e -> e = KeyError i.
Proof.
  destruct (_forward_outcome i obs self) as [Hc|c Hc He|c raw c' g' Hc He Hf control].
  - by intros [= <-].
  - rewrite _emergency_stop_eq. destruct (last_steer_of self i); [done|].
    by intros [= <-].
  - done.
Qed.

Local Abbreviation forward_body :=
  (fun '(i, obs) (actions : gmap Z Action) =>
     bind (_forward i obs) (fun action => ret (<[i := mkAction action]> actions))).

Lemma forward_loop_cons j obs data (actions : gmap Z Action) self :
  for_in ((j, obs) :: data) forward_body actions self =
    match _forward j obs self with
    | (Ok control, self1) =>
        for_in data forward_body (<[j := mkAction control]> actions) self1
    | (Raise e, self1) => (Raise e, self1)
    end.
Proof. simpl. unfold bind, ret. by destruct (_forward j obs self) as [[|] ?]. Qed.

Lemma forward_loop_missing data :
  forall (actions : gmap Z Action) self i,
    i ∈ data.*1 ->
    controller_of self i = None ->
    exists k,
      k ∈ data.*1
      /\ fst (for_in data forward_body actions self) = Raise (KeyError k).
Proof.
  induction data as [|[j obs] data IH]; intros actions self i Hin Hc.
  - by apply elem_of_nil in Hin.
  - rewrite forward_loop_cons.
    destruct (_forward j obs self) as [[control|e] self1] eqn:Hf.
    + assert (j <> i) as Hne.
      { intros ->. rewrite (_forward_no_controller i obs self Hc) in Hf. done. }
      destruct (_forward_frame j obs self i) as [F1 _]; [done|].
      rewrite Hf in F1. simpl in F1.
      apply elem_of_cons in Hin as [->|Hin]; [done|].
      destruct (IH (<[j := mkAction control]> actions) self1 i Hin) as (k & Hk & Hr).
      { by rewrite F1. }
      exists k. split; [by right|]. exact Hr.
    + exists j. split; [by left|].
      pose proof (_forward_raises j obs self e) as He. rewrite Hf in He.
      by rewrite He.
Qed.

Lemma forward_loop_frame data :
  forall (actions : gmap Z Action) self i,
    i ∉ data.*1 ->
    controller_of (snd (for_in data forward_body actions self)) i
    = controller_of self i
    /\ last_steer_of (snd (for_in data forward_body actions self)) i
       = last_steer_of self i.
Proof.
  induction data as [|[j obs] data IH]; intros actions self i Hin; [done|].
  simpl in Hin. apply not_elem_of_cons in Hin as [Hne Hin].
  rewrite forward_loop_cons.
  destruct (_forward_frame j obs self i) as [F1 F2]; [done|].
  destruct (_forward j obs self) as [[control|e] self1] eqn:Hf; simpl in F1, F2.
  - destruct (IH (<[j := mkAction control]> actions) self1 i Hin) as [I1 I2].
    split; [exact (eq_trans I1 F1) | exact (eq_trans I2 F2)].
  - done.
Qed.

Lemma for_in_invariant {A} (P : AutoPolicy -> Prop) (body : A -> M unit) l :
  (forall x s, P s -> P (snd (body x s))) ->
  forall s, P s -> P (snd (for_in l (fun x _ => body x) tt s)).
Proof.
  intros Hbody. induction l as [|x l IH]; intros s Hs; [done|].
  simpl. unfold bind. specialize (Hbody x s Hs).
  destruct (body x s) as [[[]|e] s1]; simpl in *; [by apply IH | done].
Qed.

Lemma iter_controller_dict_invariant (P : AutoPolicy -> Prop) (body : Z -> M unit) :
  (forall k s, P s -> P (snd (body k s))) ->
  forall len di_used di_pos s,
    P s -> P (snd (iter_controller_dict di_used di_pos len body s)).
Proof.
  intros Hbody. induction len as [|len IH]; intros di_used di_pos s Hs; simpl.
  - destruct (negb _); [done|]. destruct (PyDict.next_entry _ _) as [[j k]|]; done.
  - destruct (negb _); [done|]. destruct (PyDict.next_entry _ _) as [[j k]|]; [|done].
    unfold bind. specialize (Hbody k s Hs).
    destruct (body k s) as [[[]|e] s1]; simpl in *; [by apply IH | done].
Qed.

Lemma for_in_controller_dict_invariant (P : AutoPolicy -> Prop) (body : Z -> M unit) :
  (forall k s, P s -> P (snd (body k s))) ->
  forall s, P s -> P (snd (for_in_controller_dict body s)).
Proof.
  intros Hbody s Hs. unfold for_in_controller_dict, bind, get.
  by apply iter_controller_dict_invariant.
Qed.

Lemma stored_by_reset_wrap noise m : stored_by_reset noise (wrap noise m).
Proof. by destruct noise. Qed.

Lemma kept_or_stored_reset noise self s j :
  kept_or_stored noise self s -> kept_or_stored noise self (snd (_reset j noise s)).
Proof.
  intros Hk i c Hc. destruct (decide (i = j)) as [->|Hne].
  - rewrite _reset_controller in Hc. injection Hc as <-.
    right. apply stored_by_reset_wrap.
  - destruct (_reset_frame j noise s i Hne) as [F1 _]. rewrite F1 in Hc.
    by apply Hk.
Qed.

Lemma fresh_model_reset j noise self :
  resolved self ->
  resolved (snd (_reset j noise self))
  /\ fresh_model (snd (_reset j noise self)) = fresh_model self.
Proof.
  intros [[lat Hlat] [long Hlong]].
  destruct (_reset_attributes j noise self) as (_ & _ & E3 & E4 & E5 & _).
  destruct (_reset_gains j noise self) as [G1 G2].
  unfold resolved, fresh_model. rewrite E3, E4, E5, G1, G2, Hlat, Hlong.
  simpl. split; [split; by eexists | done].
Qed.

Lemma resolved_reset j noise self : resolved (snd (_reset j noise self)).
Proof.
  destruct (_reset_gains j noise self) as [G1 G2].
  unfold resolved. rewrite G1, G2. split; by eexists.
Qed.

Lemma reset_loop_resolved noise ids :
  forall self,
    resolved self ->
    let self' := snd (for_in ids (fun id _ => _reset id noise) tt self) in
    fst (for_in ids (fun id _ => _reset id noise) tt self) = Ok tt
    /\ resolved self'
    /\ fresh_model self' = fresh_model self
    /\ (forall i, i ∈ ids ->
          controller_of self' i = Some (wrap noise (fresh_model self))
          /\ last_steer_of self' i = Some 0%Q)
    /\ (forall i, i ∉ ids ->
          controller_of self' i = controller_of self i
          /\ last_steer_of self' i = last_steer_of self i).
Proof.
  induction ids as [|a ids IH]; intros self Hres.
  - simpl. split; [done|]. split; [done|]. split; [done|].
    split; [by intros i ?%elem_of_nil | done].
  - simpl. unfold bind.
    pose proof (_reset_ok a noise self) as Hok.
    pose proof (_reset_controller a noise self) as Hctl.
    pose proof (_reset_last_steer a noise self) as Hls.
    pose proof (_reset_frame a noise self) as Hfr.
    destruct (fresh_model_reset a noise self Hres) as [Hres1 Hfm].
    destruct (_reset a noise self) as [r self1]. simpl in *. subst r.
    destruct (IH self1 Hres1) as (I1 & I2 & I3 & I4 & I5).
    rewrite Hfm in *.
    split; [done|]. split; [done|]. split; [done|]. split.
    + intros i Hin. destruct (decide (i ∈ ids)) as [Hi|Hi]; [by apply I4|].
      apply elem_of_cons in Hin as [->|]; [|done].
      destruct (I5 a Hi) as [-> ->]. done.
    + intros i [Hne Hi]%not_elem_of_cons.
      destruct (I5 i Hi) as [-> ->]. by apply Hfr.
Qed.

(** A reset of a list of ids: every listed id gets a fresh controller and a
    cached steer of [0]; the entries of the other ids stay. *)
Lemma reset_loop_spec noise ids self :
  let self' := snd (for_in ids (fun id _ => _reset id noise) tt self) in
  fst (for_in ids (fun id _ => _reset id noise) tt self) = Ok tt
  /\ (forall i, i ∈ ids ->
        controller_of self' i = Some (wrap noise (fresh_model self'))
        /\ last_steer_of self' i = Some 0%Q)
  /\ (forall i, i ∉ ids ->
        controller_of self' i = controller_of self i
        /\ last_steer_of self' i = last_steer_of self i).
Proof.
  destruct ids as [|a ids].
  - simpl. split; [done|]. split; [by intros i ?%elem_of_nil | done].
  - simpl. unfold bind.
    pose proof (_reset_ok a noise self) as Hok.
    pose proof (_reset_controller a noise self) as Hctl.
    pose proof (_reset_last_steer a noise self) as Hls.
    pose proof (_reset_frame a noise self) as Hfr.
    pose proof (resolved_reset a noise self) as Hres1.
    destruct (_reset a noise self) as [r self1]. simpl in *. subst r.
    destruct (reset_loop_resolved noise ids self1 Hres1) as (I1 & I2 & I3 & I4 & I5).
    rewrite I3.
    split; [done|]. split.
    + intros i Hin. destruct (decide (i ∈ ids)) as [Hi|Hi]; [by apply I4|].
      apply elem_of_cons in Hin as [->|]; [|done].
      destruct (I5 a Hi) as [-> ->]. done.
    + intros i [Hne Hi]%not_elem_of_cons.
      destruct (I5 i Hi) as [-> ->]. by apply Hfr.
Qed.

(** *** The public methods are histories *)

Lemma run_calls_cons c calls self :
  snd (run_calls (c :: calls) self) = snd (run_calls calls (snd (run_call c self))).
Proof.
  simpl. destruct (run_call c self) as [r self1]. simpl.
  by destruct (run_calls calls self1).
Qed.

Lemma run_calls_app calls1 calls2 self :
  snd (run_calls (calls1 ++ calls2) self)
  = snd (run_calls calls2 (snd (run_calls calls1 self))).
Proof.
  revert self. induction calls1 as [|c calls1 IH]; intros self; [done|].
  rewrite <- app_comm_cons, !run_calls_cons. apply IH.
Qed.

Lemma forward_loop_history data :
  forall (actions : gmap Z Action) self,
    exists calls,
      snd (for_in data forward_body actions self) = snd (run_calls calls self).
Proof.
  induction data as [|[j obs] data IH]; intros actions self.
  - by exists [].
  - rewrite forward_loop_cons.
    destruct (_forward j obs self) as [[control|e] self1] eqn:Hf.
    + destruct (IH (<[j := mkAction control]> actions) self1) as [calls Hc].
      exists (CallForward j obs :: calls).
      by rewrite run_calls_cons, run_call_state, Hf.
    + exists [CallForward j obs].
      by rewrite run_calls_cons, run_call_state, Hf.
Qed.

Lemma reset_loop_history noise ids :
  forall self,
    exists calls,
      snd (for_in ids (fun id _ => _reset id noise) tt self)
      = snd (run_calls calls self).
Proof.
  induction ids as [|a ids IH]; intros self.
  - by exists [].
  - simpl. unfold bind.
    destruct (_reset a noise self) as [[[]|e] self1] eqn:Hr.
    + destruct (IH self1) as [calls Hc].
      exists (CallReset a noise :: calls).
      by rewrite run_calls_cons, run_call_state, Hr.
    + exists [CallReset a noise].
      by rewrite run_calls_cons, run_call_state, Hr.
Qed.

Lemma iter_controller_dict_history noise len :
  forall di_used di_pos self,
    exists calls,
      snd (iter_controller_dict di_used di_pos len (fun id => _reset id noise) self)
      = snd (run_calls calls self).
Proof.
  induction len as [|len IH]; intros di_used di_pos self; simpl.
  - exists []. destruct (negb _); [done|].
    by destruct (PyDict.next_entry _ _) as [[j k]|].
  - destruct (negb _); [by exists []|].
    destruct (PyDict.next_entry _ _) as [[j k]|]; [|by exists []].
    unfold bind.
    destruct (_reset k noise self) as [[[]|e] self1] eqn:Hr.
    + destruct (IH di_used (S j) self1) as [calls Hc].
      exists (CallReset k noise :: calls).
      by rewrite run_calls_cons, run_call_state, Hr.
    + exists [CallReset k noise].
      by rewrite run_calls_cons, run_call_state, Hr.
Qed.

(** Whatever a public method leaves is the result of a history. *)
Lemma public_methods_are_histories self :
  (forall data, exists calls,
      snd (_forward_eval data self) = snd (run_calls calls self))
  /\ (forall data, exists calls,
      snd (_forward_collect data self) = snd (run_calls calls self))
  /\ (forall data_id, exists calls,
      snd (_reset_eval data_id self) = snd (run_calls calls self))
  /\ (forall data_id, exists calls,
      snd (_reset_collect data_id self) = snd (run_calls calls self))
  /\ snd (_init_eval self) = snd (run_calls [CallInit] self)
  /\ snd (_init_collect self) = snd (run_calls [CallInit] self).
Proof.
  split; [|split; [|split; [|split; [|split]]]].
  - intros data. apply forward_loop_history.
  - intros data. apply forward_loop_history.
  - intros [ids|]; simpl.
    + apply reset_loop_history.
    + unfold for_in_controller_dict, bind, get. apply iter_controller_dict_history.
  - intros [ids|]; unfold _reset_collect, bind, get.
    + apply reset_loop_history.
    + unfold for_in_controller_dict, bind, get. apply iter_controller_dict_history.
  - done.
  - done.
Qed.

Lemma reachable_history cfg calls self :
  reachable cfg self -> reachable cfg (snd (run_calls calls self)).
Proof.
  intros (g & calls0 & ->). exists g, (calls0 ++ calls). by rewrite run_calls_app.
Qed.

End PolicyFacts.

(* ===================================================================== *)
(** ** The properties *)
(* ===================================================================== *)

Section Properties.
Context `{CoreModels}.

(** C1 (emergency stop).  After construction with [cfg] and any history of
    calls, a forward of an id that has a controller, on an observation under
    which one of the four emergency conditions holds, returns a command with
    throttle [0.0] and brake [1.0] whose steer is the steer the history
    recorded for the id: that of its last non-emergency command, or [0] when
    there is none since its last reset.  The call leaves the object, and so
    the last-steer cache, as it was. *)
Theorem emergency_stop_holds_recorded_steer cfg g calls i obs :
  let log := fst (run_calls calls (__init__ cfg g)) in
  let self := snd (run_calls calls (__init__ cfg g)) in
  is_Some (controller_of self i) ->
  emergency (cfg_ignore_light cfg) obs ->
  exists control,
    _forward i obs self = (Ok control, self)
    /\ throttle control = 0.0%Q
    /\ brake control = 1.0%Q
    /\ steer control = recorded_steer (cfg_ignore_light cfg) i log
    /\ last_steer_of (snd (_forward i obs self)) i = last_steer_of self i.
Proof.
  intros log self [c Hc] He.
  pose proof (consistent_run_calls cfg calls _ (consistent___init__ cfg g))
    as (_ & _ & _ & _ & _ & Hig & _).
  fold self in Hig.
  assert (last_steer_of self i = Some (recorded_steer (cfg_ignore_light cfg) i log))
    as Hlast.
  { apply (recorded_run_calls (cfg_ignore_light cfg) calls (__init__ cfg g)
             (fun _ => 0%Q)); try done.
    intros k [? Hk]. done. }
  apply emergencyb_iff in He. rewrite <- Hig in He.
  rewrite (_forward_emergency i obs self c Hc He), _emergency_stop_eq, Hlast.
  eexists. repeat split; simpl; try reflexivity. by symmetry.
Qed.

(** C4 (normal tracking).  In a reachable object, a forward of an id that
    has a controller, on an observation under which none of the four
    emergency conditions holds, invokes that controller once with the
    observation's speed, location and orientation, the target speed
    [min(configured target speed, speed_limit)] and the target waypoint; it
    returns the controller's command, as it is or with the throttle capped
    at [0.3], and afterwards the id's cached steer is the steer of that
    command and the id's controller is the invoked one, advanced. *)
Theorem normal_tracking_invokes_controller cfg self i obs c :
  reachable cfg self ->
  controller_of self i = Some c ->
  ~ emergency (cfg_ignore_light cfg) obs ->
  let out :=
    controller_forward c (speed obs) (location obs) (orientation obs)
      (Qmin (cfg_target_speed cfg) (speed_limit obs)) (target obs)
      (np_random self) in
  let raw := out.1.1 in
  exists control self',
    _forward i obs self = (Ok control, self')
    /\ (control = raw \/ control = set_throttle (Qmin (throttle raw) 0.3) raw)
    /\ steer control = steer raw
    /\ last_steer_of self' i = Some (steer raw)
    /\ controller_of self' i = Some out.1.2
    /\ np_random self' = out.2.
Proof.
  intros (_ & Hts & _ & _ & _ & Hig & _)%reachable_consistent Hc He out raw.
  apply emergencyb_false in He. rewrite <- Hig in He.
  rewrite (_forward_tracking i obs self c Hc He).
  rewrite py_min_Qmin, Hts. fold out.
  destruct out as [[raw' c'] g'] eqn:Hout. subst raw. simpl.
  eexists _, _. split; [reflexivity|].
  rewrite py_min_Qmin.
  unfold last_steer_of, controller_of. simpl.
  rewrite PyDictFacts.getitem_mutate_eq. unfold controller_of in Hc. rewrite Hc.
  destruct (py_gt (steer raw') 0.1 && py_gt (speed obs) 15); simpl;
    rewrite lookup_insert_eq; repeat split; auto.
Qed.

(** C5 (reset).  A reset of an id always returns, and afterwards the dict
    holds exactly one controller for the id, the one the reset has just
    constructed from the object's gains and limits (wrapped or not), and
    the id's cached steer is [0].  ([PyDict.wf] holds of every dict: no key
    has two entries.) *)
Theorem reset_installs_one_fresh_controller self i noise :
  PyDict.wf (_controller_dict self) ->
  let self' := snd (_reset i noise self) in
  fst (_reset i noise self) = Ok tt
  /\ instances (_controller_dict self') i = 1%nat
  /\ controller_of self' i = Some (wrap noise (fresh_model self'))
  /\ last_steer_of self' i = Some 0%Q.
Proof.
  intros Hwf self'. split; [apply _reset_ok|]. split; [by apply _reset_wf|].
  split; [apply _reset_controller | apply _reset_last_steer].
Qed.

(** C10 (emergency steps do not touch the controller).  A forward on an
    observation under which an emergency condition holds leaves the whole
    object as it was, the controller of the id and its accumulated state
    included; a forward of an id with a controller on any other observation
    leaves that controller advanced by exactly one invocation. *)
Theorem emergency_forward_leaves_controller self i obs :
  (emergency (_ignore_traffic_light self) obs ->
     snd (_forward i obs self) = self
     /\ controller_of (snd (_forward i obs self)) i = controller_of self i)
  /\ (forall c,
        controller_of self i = Some c ->
        ~ emergency (_ignore_traffic_light self) obs ->
        controller_of (snd (_forward i obs self)) i
        = Some (controller_forward c (speed obs) (location obs) (orientation obs)
                  (py_min (target_speed self) (speed_limit obs)) (target obs)
                  (np_random self)).1.2).
Proof.
  split.
  - intros He%emergencyb_iff.
    assert (snd (_forward i obs self) = self) as Hs; [|by rewrite Hs].
    destruct (controller_of self i) as [c|] eqn:Hc.
    + rewrite (_forward_emergency i obs self c Hc He). apply _emergency_stop_state.
    + by rewrite (_forward_no_controller i obs self Hc).
  - intros c Hc He%emergencyb_false.
    rewrite (_forward_tracking i obs self c Hc He).
    destruct (controller_forward _ _ _ _ _ _ _) as [[raw c'] g']. simpl.
    unfold controller_of in *. simpl.
    rewrite PyDictFacts.getitem_mutate_eq, Hc. done.
Qed.

(** C9 (gain presets).  In an object reached after construction with [cfg],
    a reset builds its controller, for the lateral and the longitudinal
    gains independently, from the configured gain dict when one was
    configured and else from the highway preset when the configured target
    speed exceeds 50 and the city preset otherwise.  The choice is made at
    reset only: construction leaves both attributes as configured, and a
    forward never changes them. *)
Theorem reset_resolves_gain_presets cfg self i noise :
  reachable cfg self ->
  controller_of (snd (_reset i noise self)) i
  = Some (wrap noise
      (VehiclePIDController_init
         (Some (spec_gains (cfg_lateral_dict cfg) (cfg_target_speed cfg)
                  DEFAULT_LAT_HW_DICT DEFAULT_LAT_CITY_DICT))
         (Some (spec_gains (cfg_longitudinal_dict cfg) (cfg_target_speed cfg)
                  DEFAULT_LONG_HW_DICT DEFAULT_LONG_CITY_DICT))
         (cfg_max_throttle cfg) (cfg_max_brake cfg) (cfg_max_steer cfg)))
  /\ (forall g, _lateral_dict (__init__ cfg g) = cfg_lateral_dict cfg
                /\ _longitudinal_dict (__init__ cfg g) = cfg_longitudinal_dict cfg)
  /\ (forall j obs,
        _lateral_dict (snd (_forward j obs self)) = _lateral_dict self
        /\ _longitudinal_dict (snd (_forward j obs self)) = _longitudinal_dict self).
Proof.
  intros (_ & Hts & Hmt & Hmb & Hms & _ & Hlat & Hlong & _)%reachable_consistent.
  split; [|split].
  - rewrite _reset_controller. unfold fresh_model.
    destruct (_reset_attributes i noise self) as (_ & _ & E3 & E4 & E5 & _).
    destruct (_reset_gains i noise self) as [G1 G2].
    rewrite E3, E4, E5, G1, G2, Hts, Hmt, Hmb, Hms.
    apply configured_or_preset_reset in Hlat as [_ ->].
    apply configured_or_preset_reset in Hlong as [_ ->].
    done.
  - done.
  - intros j obs.
    by destruct (_forward_attributes j obs self) as (_ & _ & _ & _ & _ & _ & ? & ? & _).
Qed.

(** C7 (forward before reset).  When an id has no controller, a forward of
    it raises [KeyError] for every observation and leaves the object as it
    was, and a forward of any batch that contains the id, in either mode,
    ends in a [KeyError] for an id of the batch: the error reaches the
    caller. *)
Theorem forward_without_controller_raises self data i :
  i ∈ data.*1 ->
  controller_of self i = None ->
  (forall obs, _forward i obs self = (Raise (KeyError i), self))
  /\ (exists k, k ∈ data.*1 /\ fst (_forward_eval data self) = Raise (KeyError k))
  /\ (exists k, k ∈ data.*1 /\ fst (_forward_collect data self) = Raise (KeyError k)).
Proof.
  intros Hin Hc. split; [|split].
  - intros obs. by apply _forward_no_controller.
  - by apply (forward_loop_missing data ∅ self i).
  - by apply (forward_loop_missing data ∅ self i).
Qed.

(** C8 (steer noise).  Whatever controller an eval-mode reset stores is a
    plain one, for every id list (or none) and every config; whatever a
    collect-mode reset stores is wrapped with uniform noise in [-0.3, 0.3]
    when the config's noise flag is true and plain when it is false.  For a
    listed id the stored controller is the freshly constructed one.  The
    wrapper returns the wrapped controller's throttle and brake and adds the
    drawn offset to its steer. *)
Theorem reset_wraps_noise_only_in_collect_mode :
  (forall data_id self, kept_or_stored false self (snd (_reset_eval data_id self)))
  /\ (forall data_id self,
        kept_or_stored (cfg_noise (_cfg self)) self (snd (_reset_collect data_id self)))
  /\ (forall ids self i,
        i ∈ ids ->
        let self' := snd (_reset_eval (Some ids) self) in
        controller_of self' i = Some (Plain (fresh_model self')))
  /\ (forall ids self i,
        i ∈ ids ->
        let self' := snd (_reset_collect (Some ids) self) in
        controller_of self' i
        = Some (if cfg_noise (_cfg self)
                then SteerNoiseWrapper (fresh_model self') "uniform" (-0.3) 0.3
                else Plain (fresh_model self')))
  /\ (forall m ty lo hi v l o tv tl g,
        let noisy := (controller_forward (SteerNoiseWrapper m ty lo hi) v l o tv tl g).1.1 in
        let plain := (VehiclePIDController_forward m v l o tv tl).1 in
        throttle noisy = throttle plain
        /\ brake noisy = brake plain
        /\ steer noisy = (steer plain + (uniform g lo hi).1)%Q).
Proof.
  assert (forall noise self, kept_or_stored noise self self) as Hrefl.
  { intros noise self i c Hc. by left. }
  split; [|split; [|split; [|split]]].
  - intros [ids|] self; simpl.
    + apply for_in_invariant; [|apply Hrefl].
      intros j s. apply kept_or_stored_reset.
    + apply for_in_controller_dict_invariant; [|apply Hrefl].
      intros j s. apply kept_or_stored_reset.
  - intros [ids|] self; unfold _reset_collect, bind, get.
    + apply for_in_invariant; [|apply Hrefl].
      intros j s. apply kept_or_stored_reset.
    + apply for_in_controller_dict_invariant; [|apply Hrefl].
      intros j s. apply kept_or_stored_reset.
  - intros ids self i Hin. simpl.
    destruct (reset_loop_spec false ids self) as (_ & Hs & _).
    by destruct (Hs i Hin).
  - intros ids self i Hin. unfold _reset_collect, bind, get.
    destruct (reset_loop_spec (cfg_noise (_cfg self)) ids self) as (_ & Hs & _).
    destruct (Hs i Hin) as [-> _]. by destruct (cfg_noise (_cfg self)).
  - intros m ty lo hi v l o tv tl g. simpl.
    destruct (VehiclePIDController_forward m v l o tv tl) as [control m'].
    destruct (uniform g lo hi) as [offset g']. done.
Qed.

(** C3 as amended (the modes share their state).  Forward is the same
    function of the object in both modes, and so is reset when the noise
    flag is off.  A reset of a list of ids through either interface gives
    every listed id a fresh controller, the one just constructed from the
    gains and limits of the object (wrapped in collect mode when the noise
    flag is on), and a cached steer of [0], which both modes read from then
    on; a reset or forward through either interface
    leaves the controller and the cached steer of every id that is not
    among the ids of the call unchanged. *)
Theorem modes_share_state_and_frame_other_ids :
  (forall data self, _forward_collect data self = _forward_eval data self)
  /\ (forall data_id self,
        cfg_noise (_cfg self) = false ->
        _reset_collect data_id self = _reset_eval data_id self)
  /\ (forall ids self i,
        i ∈ ids ->
        last_steer_of (snd (_reset_collect (Some ids) self)) i = Some 0%Q
        /\ last_steer_of (snd (_reset_eval (Some ids) self)) i = Some 0%Q
        /\ controller_of (snd (_reset_collect (Some ids) self)) i
           = Some (wrap (cfg_noise (_cfg self))
                     (fresh_model (snd (_reset_collect (Some ids) self))))
        /\ controller_of (snd (_reset_eval (Some ids) self)) i
           = Some (wrap false (fresh_model (snd (_reset_eval (Some ids) self)))))
  /\ (forall ids self i,
        i ∉ ids ->
        (controller_of (snd (_reset_collect (Some ids) self)) i = controller_of self i
         /\ last_steer_of (snd (_reset_collect (Some ids) self)) i = last_steer_of self i)
        /\ (controller_of (snd (_reset_eval (Some ids) self)) i = controller_of self i
            /\ last_steer_of (snd (_reset_eval (Some ids) self)) i = last_steer_of self i))
  /\ (forall data self i,
        i ∉ data.*1 ->
        (controller_of (snd (_forward_collect data self)) i = controller_of self i
         /\ last_steer_of (snd (_forward_collect data self)) i = last_steer_of self i)
        /\ (controller_of (snd (_forward_eval data self)) i = controller_of self i
            /\ last_steer_of (snd (_forward_eval data self)) i = last_steer_of self i)).
Proof.
  split; [|split; [|split; [|split]]].
  - done.
  - intros data_id self Hn. unfold _reset_collect, _reset_eval, bind, get.
    by rewrite Hn.
  - intros ids self i Hin. unfold _reset_collect, _reset_eval, bind, get.
    destruct (reset_loop_spec (cfg_noise (_cfg self)) ids self) as (_ & Hc & _).
    destruct (reset_loop_spec false ids self) as (_ & He & _).
    destruct (Hc i Hin) as [Hc1 Hc2]. destruct (He i Hin) as [He1 He2].
    split; [done|]. split; [done|]. split; done.
  - intros ids self i Hin. unfold _reset_collect, _reset_eval, bind, get.
    destruct (reset_loop_spec (cfg_noise (_cfg self)) ids self) as (_ & _ & Hc).
    destruct (reset_loop_spec false ids self) as (_ & _ & He).
    split; [by apply Hc | by apply He].
  - intros data self i Hin. split; by apply forward_loop_frame.
Qed.

(** A tracking step caps the throttle when the controller's steer is above
    [0.1] and the speed above [15]. *)
Lemma curve_cap_positive_steer self i obs c :
  controller_of self i = Some c ->
  ~ emergency (_ignore_traffic_light self) obs ->
  let raw :=
    (controller_forward c (speed obs) (location obs) (orientation obs)
       (py_min (target_speed self) (speed_limit obs)) (target obs)
       (np_random self)).1.1 in
  (0.1 < steer raw)%Q -> (15 < speed obs)%Q ->
  exists control,
    fst (_forward i obs self) = Ok control /\ (throttle control <= 0.3)%Q.
Proof.
  intros Hc He%emergencyb_false raw Hs%py_gt_iff Hv%py_gt_iff.
  rewrite (_forward_tracking i obs self c Hc He). subst raw.
  destruct (controller_forward _ _ _ _ _ _ _) as [[raw c'] g']. simpl in *.
  rewrite Hs, Hv. simpl. eexists. split; [reflexivity|]. simpl.
  apply py_min_le_r.
Qed.

End Properties.

(* ===================================================================== *)
(** ** The policy on the stand-in models *)
(* ===================================================================== *)

Import Double.

(** C2 (curve speed limiting) fails on the code.  Default config, id [0]
    reset, the observation [left_turn]: no emergency condition holds, the
    speed is 20, the controller steers [-1/2], of magnitude above [0.1], and
    the command comes back with throttle [0.75], above [0.3].  The condition
    [abs(steer > 0.1 and current_speed > 15)] takes the absolute value of the
    conjunction, not of the steer, so a left turn is never capped. *)
Theorem curve_cap_misses_left_turn :
  ~ emergency (_ignore_traffic_light policy1) left_turn
  /\ exists m raw control,
       controller_of policy1 0 = Some (Plain m)
       /\ (VehiclePIDController_forward m (speed left_turn) (location left_turn)
             (orientation left_turn)
             (Qmin (cfg_target_speed config) (speed_limit left_turn))
             (target left_turn)).1 = raw
       /\ (0.1 < Qabs (steer raw))%Q
       /\ (15 < speed left_turn)%Q
       /\ fst (_forward 0 left_turn policy1) = Ok control
       /\ ~ (throttle control <= 0.3)%Q.
Proof.
  split.
  - apply emergencyb_false. reflexivity.
  - exists (mkP (Some DEFAULT_LATERAL_DICT) (Some DEFAULT_LONGITUDINAL_DICT)
              0.75 0.3 0.8 0),
      {| steer := (-1 # 2)%Q; throttle := 0.75; brake := 0 |},
      {| steer := (-1 # 2)%Q; throttle := 0.75; brake := 0 |}.
    split; [vm_compute; reflexivity|].
    split; [vm_compute; reflexivity|].
    split; [reflexivity|]. split; [reflexivity|].
    split; [vm_compute; reflexivity|].
    intros Hle. vm_compute in Hle. by apply Hle.
Qed.

(** C6 (reset of all tracked ids) fails on the code.  Default config, id [0]
    reset and so tracked: [reset()] without ids raises [RuntimeError] in
    either mode, because [_reset] pops the key and inserts it again while the
    loop iterates over the same dict.  And after the resets [0, 1, 0, 1, 0]
    and a forward of id [0], [reset()] returns but skips id [0]: its cached
    steer is still that of the forward. *)
Theorem reset_all_fails_on_tracked_ids :
  PyDict.keys (_controller_dict policy1) = [0]
  /\ fst (_reset_eval None policy1)
     = Raise (RuntimeError "dictionary keys changed during iteration")
  /\ fst (_reset_collect None policy1)
     = Raise (RuntimeError "dictionary keys changed during iteration")
  /\ (let self := snd (_forward_eval [(0, left_turn)]
                    (snd (_reset_eval (Some [0; 1; 0; 1; 0]) policy0))) in
      PyDict.keys (_controller_dict self) = [1; 0]
      /\ last_steer_of self 0 = Some (-1 # 2)%Q
      /\ fst (_reset_eval None self) = Ok tt
      /\ last_steer_of (snd (_reset_eval None self)) 0 = Some (-1 # 2)%Q
      /\ last_steer_of (snd (_reset_eval None self)) 1 = Some 0%Q).
Proof. vm_compute. repeat split; reflexivity. Qed.

(** C3 as stated fails on the code: a collect-mode reset of id [0] on a new
    policy gives id [0] the controller that eval mode reads, where there was
    none before. *)
Lemma collect_reset_changes_eval_entries : ~ mode_isolation.
Proof.
  intros (Hreset & _).
  destruct (Hreset (Some [0]) 0 policy0) as [Hc _].
  vm_compute in Hc. discriminate Hc.
Qed.

(** *** Instances of the properties *)

Lemma emergency_stop_holds_recorded_steer_witness :
  let calls := [CallReset 0 false; CallForward 0 left_turn] in
  let self := snd (run_calls calls (__init__ config 0%nat)) in
  is_Some (controller_of self 0)
  /\ emergency (cfg_ignore_light config) red_light
  /\ exists control,
       _forward 0 red_light self = (Ok control, self)
       /\ throttle control = 0.0%Q
       /\ brake control = 1.0%Q
       /\ steer control
          = recorded_steer (cfg_ignore_light config) 0
              (fst (run_calls calls (__init__ config 0%nat)))
       /\ last_steer_of (snd (_forward 0 red_light self)) 0 = last_steer_of self 0.
Proof.
  intros calls self.
  assert (is_Some (controller_of self 0)) as Hc.
  { eexists. vm_compute. reflexivity. }
  assert (emergency (cfg_ignore_light config) red_light) as He.
  { apply emergencyb_iff. reflexivity. }
  split; [exact Hc|]. split; [exact He|].
  exact (emergency_stop_holds_recorded_steer config 0%nat calls 0 red_light Hc He).
Defined.

Lemma policy1_reachable : reachable config policy1.
Proof. exists 0%nat, [CallReset 0 false]. vm_compute. reflexivity. Defined.

Lemma normal_tracking_invokes_controller_witness :
  reachable config policy1
  /\ ~ emergency (cfg_ignore_light config) left_turn
  /\ exists c control self',
       controller_of policy1 0 = Some c
       /\ _forward 0 left_turn policy1 = (Ok control, self')
       /\ last_steer_of self' 0 = Some (steer control).
Proof.
  assert (~ emergency (cfg_ignore_light config) left_turn) as He.
  { apply emergencyb_false. reflexivity. }
  split; [exact policy1_reachable|]. split; [exact He|].
  destruct (controller_of policy1 0) as [c|] eqn:Hc; [|vm_compute in Hc; discriminate Hc].
  destruct (normal_tracking_invokes_controller config policy1 0 left_turn c
              policy1_reachable Hc He)
    as (control & self' & Hf & _ & Hs & Hl & _).
  exists c, control, self'. rewrite Hs. split; [reflexivity|]. split; [exact Hf | exact Hl].
Defined.

Lemma reset_installs_one_fresh_controller_witness :
  PyDict.wf (_controller_dict policy1)
  /\ instances (_controller_dict (snd (_reset 0 true policy1))) 0 = 1%nat
  /\ last_steer_of (snd (_reset 0 true policy1)) 0 = Some 0%Q.
Proof.
  assert (PyDict.wf (_controller_dict policy1)) as Hwf.
  { vm_compute. apply NoDup_singleton. }
  split; [exact Hwf|].
  destruct (reset_installs_one_fresh_controller policy1 0 true Hwf) as (_ & Hi & _ & Hl).
  split; [exact Hi | exact Hl].
Defined.

Lemma emergency_forward_leaves_controller_witness :
  emergency (_ignore_traffic_light policy1) red_light
  /\ snd (_forward 0 red_light policy1) = policy1.
Proof.
  assert (emergency (_ignore_traffic_light policy1) red_light) as He.
  { apply emergencyb_iff. reflexivity. }
  split; [exact He|].
  exact (proj1 (proj1 (emergency_forward_leaves_controller policy1 0 red_light) He)).
Defined.

Lemma reset_resolves_gain_presets_witness :
  reachable config_auto (__init__ config_auto 0%nat)
  /\ controller_of (snd (_reset 7 true (__init__ config_auto 0%nat))) 7
     = Some (SteerNoiseWrapper
               (VehiclePIDController_init (Some DEFAULT_LAT_HW_DICT)
                  (Some DEFAULT_LONG_HW_DICT) 0.75 0.3 0.8)
               "uniform" (-0.3) 0.3).
Proof.
  assert (reachable config_auto (__init__ config_auto 0%nat)) as Hr.
  { exists 0%nat, []. reflexivity. }
  split; [exact Hr|].
  exact (proj1 (reset_resolves_gain_presets config_auto _ 7 true Hr)).
Defined.

Lemma forward_without_controller_raises_witness :
  1 ∈ [(0, left_turn); (1, red_light)].*1
  /\ controller_of policy1 1 = None
  /\ exists k, fst (_forward_eval [(0, left_turn); (1, red_light)] policy1)
               = Raise (KeyError k).
Proof.
  assert (1 ∈ [(0, left_turn); (1, red_light)].*1) as Hin.
  { simpl. right. left. }
  assert (controller_of policy1 1 = None) as Hc.
  { vm_compute. reflexivity. }
  split; [exact Hin|]. split; [exact Hc|].
  destruct (forward_without_controller_raises policy1 _ 1 Hin Hc) as (_ & (k & _ & Hk) & _).
  exists k. exact Hk.
Defined.

Lemma reset_wraps_noise_only_in_collect_mode_witness :
  0 ∈ [0; 3]
  /\ controller_of (snd (_reset_eval (Some [0; 3]) (__init__ config_auto 0%nat))) 0
     = Some (Plain (fresh_model
                      (snd (_reset_eval (Some [0; 3]) (__init__ config_auto 0%nat)))))
  /\ controller_of (snd (_reset_collect (Some [0; 3]) (__init__ config_auto 0%nat))) 0
     = Some (SteerNoiseWrapper
               (fresh_model
                  (snd (_reset_collect (Some [0; 3]) (__init__ config_auto 0%nat))))
               "uniform" (-0.3) 0.3).
Proof.
  assert (0 ∈ [0; 3]) as Hin by left.
  split; [exact Hin|].
  destruct reset_wraps_noise_only_in_collect_mode as (_ & _ & He & Hc & _).
  split.
  - exact (He [0; 3] (__init__ config_auto 0%nat) 0 Hin).
  - exact (Hc [0; 3] (__init__ config_auto 0%nat) 0 Hin).
Defined.

Lemma modes_share_state_and_frame_other_ids_witness :
  (1 ∉ [0])
  /\ controller_of (snd (_reset_collect (Some [0]) policy1)) 1 = controller_of policy1 1
  /\ 0 ∈ [0]
  /\ last_steer_of (snd (_reset_collect (Some [0]) policy1)) 0 = Some 0%Q
  /\ controller_of (snd (_reset_collect (Some [0]) policy1)) 0
     = Some (wrap (cfg_noise (_cfg policy1))
               (fresh_model (snd (_reset_collect (Some [0]) policy1))))
  /\ cfg_noise (_cfg policy1) = false
  /\ _reset_collect (Some [0]) policy1 = _reset_eval (Some [0]) policy1.
Proof.
  assert (1 ∉ [0]) as Hout.
  { intros Hin. apply list_elem_of_singleton in Hin. discriminate Hin. }
  assert (0 ∈ [0]) as Hin by left.
  assert (cfg_noise (_cfg policy1) = false) as Hn by reflexivity.
  destruct modes_share_state_and_frame_other_ids as (_ & Hsame & Hreset & Hframe & _).
  split; [exact Hout|].
  split; [exact (proj1 (proj1 (Hframe [0] policy1 1 Hout)))|].
  split; [exact Hin|].
  split; [exact (proj1 (Hreset [0] policy1 0 Hin))|].
  split; [exact (proj1 (proj2 (proj2 (Hreset [0] policy1 0 Hin))))|].
  split; [exact Hn|].
  exact (Hsame (Some [0]) policy1 Hn).
Defined.


(* ===================================================================== *)
(** ** Further properties of the policy *)
(* ===================================================================== *)

Section Batches.
Context `{CoreModels}.

Local Abbreviation forward_body :=
  (fun '(i, obs) (actions : gmap Z Action) =>
     bind (_forward i obs) (fun action => ret (<[i := mkAction action]> actions))).

Lemma for_in_app {A B} (l1 l2 : list A) (body : A -> B -> M B) (acc : B) self :
  for_in (l1 ++ l2) body acc self =
    match for_in l1 body acc self with
    | (Ok acc', self') => for_in l2 body acc' self'
    | (Raise e, self') => (Raise e, self')
    end.
Proof.
  revert acc self. induction l1 as [|x l1 IH]; intros acc self; [done|].
  simpl. unfold bind. destruct (body x acc self) as [[acc'|e] self1]; [apply IH|done].
Qed.

(** A forward of an id that has a controller and a cached steer returns a
    command, and the steer of that command is the steer cached afterwards. *)
Lemma _forward_ok i obs self :
  is_Some (controller_of self i) ->
  is_Some (last_steer_of self i) ->
  exists control,
    fst (_forward i obs self) = Ok control
    /\ last_steer_of (snd (_forward i obs self)) i = Some (steer control).
Proof.
  intros [c Hc] [q Hq].
  destruct (_forward_outcome i obs self) as [Hn|c0 _ He|c0 raw c' g' _ He Hf control].
  - congruence.
  - rewrite _emergency_stop_eq, Hq. simpl. by eexists.
  - exists control. split; [done|]. unfold last_steer_of. simpl.
    apply lookup_insert_eq.
Qed.

Lemma _forward_keeps_tracked i obs self k :
  is_Some (controller_of self k) <-> is_Some (controller_of (snd (_forward i obs self)) k).
Proof.
  destruct (_forward_attributes i obs self) as (_ & _ & _ & _ & _ & _ & _ & _ & Hk).
  split; intros Hs.
  - by apply (is_Some_getitem_keys _ _ _ (eq_sym Hk)).
  - by apply (is_Some_getitem_keys _ _ _ Hk).
Qed.

Lemma forward_loop_ok data :
  forall (acc : gmap Z Action) self,
    (forall i, i ∈ data.*1 ->
       is_Some (controller_of self i) /\ is_Some (last_steer_of self i)) ->
    exists actions,
      fst (for_in data forward_body acc self) = Ok actions
      /\ (forall i, is_Some (actions !! i) <-> i ∈ data.*1 \/ is_Some (acc !! i)).
Proof.
  induction data as [|[j obs] data IH]; intros acc self Hall.
  - exists acc. split; [done|]. intros i. split; [by right|].
    intros [Hin|Hs]; [by apply elem_of_nil in Hin | done].
  - rewrite forward_loop_cons.
    destruct (Hall j) as [Hc Hq]; [by left|].
    destruct (_forward_ok j obs self Hc Hq) as (control & Hf & _).
    pose proof (fun k => _forward_keeps_tracked j obs self k) as Hkeep.
    pose proof (fun k => _forward_cached j obs self k) as Hcache.
    destruct (_forward j obs self) as [r self1]. simpl in *. subst r.
    destruct (IH (<[j := mkAction control]> acc) self1) as (actions & Hr & Hdom).
    { intros i Hi. destruct (Hall i) as [Hci Hqi]; [by right|].
      split; [by apply Hkeep | by apply Hcache]. }
    exists actions. split; [done|]. intros i. rewrite Hdom.
    rewrite lookup_insert. case_decide as Hij.
    + subst. split; [intros _; left; by left | intros _; right; by eexists].
    + split.
      * intros [Hin|Hs]; [left; by right | by right].
      * intros [Hin|Hs]; [|by right].
        apply elem_of_cons in Hin as [?|Hin]; [congruence | by left].
Qed.

(** The steer of every action a batch has produced so far is the steer
    cached for its id. *)
Lemma forward_loop_steer data :
  forall (acc : gmap Z Action) self,
    (forall i a, acc !! i = Some a -> last_steer_of self i = Some (steer (action a))) ->
    forall actions,
      fst (for_in data forward_body acc self) = Ok actions ->
      forall i a, actions !! i = Some a ->
        last_steer_of (snd (for_in data forward_body acc self)) i
        = Some (steer (action a)).
Proof.
  induction data as [|[j obs] data IH]; intros acc self Hacc actions Hr i a Ha.
  - simpl in *. injection Hr as <-. by apply Hacc.
  - rewrite forward_loop_cons in *.
    pose proof (_forward_outcome j obs self) as Ho.
    pose proof (fun k => _forward_frame j obs self k) as Hfr.
    destruct (_forward j obs self) as [[control|e] self1] eqn:Hf; [|done].
    apply (IH (<[j := mkAction control]> acc) self1) with (actions := actions);
      [|done|done].
    intros k b. rewrite lookup_insert. case_decide as Hjk.
    + subst k. intros [= <-]. simpl.
      inversion Ho as [Hn Heq|c Hc He Heq|c raw c' g' Hc He Hraw control0 Heq].
      * rewrite _emergency_stop_eq in Heq.
        destruct (last_steer_of self j) as [q|] eqn:Hq; [|done].
        simplify_eq. done.
      * simplify_eq. unfold last_steer_of. simpl. apply lookup_insert_eq.
    + intros Hb. destruct (Hfr k) as [_ F2]; [congruence|].
      simpl in F2. rewrite F2. by apply Hacc.
Qed.

End Batches.

Section MoreProperties.
Context `{CoreModels}.

Local Abbreviation forward_body :=
  (fun '(i, obs) (actions : gmap Z Action) =>
     bind (_forward i obs) (fun action => ret (<[i := mkAction action]> actions))).

(** X1 (initialising).
    Initialising either mode puts the object back to what construction made
    of its config: the controllers and cached steers of all ids are gone for
    both modes, so a forward in the other mode raises [KeyError] for the
    first id of its batch; initialising again changes nothing. *)
Theorem init_forgets_every_controller self :
  snd (_init_eval self) = __init__ (_cfg self) (np_random self)
  /\ snd (_init_collect self) = __init__ (_cfg self) (np_random self)
  /\ (forall j obs rest,
        fst (_forward_eval ((j, obs) :: rest) (snd (_init_collect self)))
        = Raise (KeyError j))
  /\ (forall j obs rest,
        fst (_forward_collect ((j, obs) :: rest) (snd (_init_eval self)))
        = Raise (KeyError j))
  /\ snd (_init_eval (snd (_init_collect self))) = snd (_init_collect self).
Proof.
  split; [done|]. split; [done|].
  assert (forall j obs rest s,
            controller_of s j = None ->
            fst (for_in ((j, obs) :: rest) forward_body ∅ s) = Raise (KeyError j))
    as Hfirst.
  { intros j obs rest s Hc. rewrite forward_loop_cons.
    by rewrite (_forward_no_controller j obs s Hc). }
  split; [|split].
  - intros j obs rest. by apply Hfirst.
  - intros j obs rest. by apply Hfirst.
  - done.
Qed.

(** X2 (batch forward).
    In a reachable object a forward of a batch returns actions exactly when
    every id of the batch has a controller, and the actions it returns are
    those of the ids of the batch and of no other id. *)
Theorem forward_batch_succeeds_iff_all_tracked cfg self data :
  reachable cfg self ->
  ((forall i, i ∈ data.*1 -> is_Some (controller_of self i))
   <-> exists actions, fst (_forward_eval data self) = Ok actions)
  /\ (forall actions,
        fst (_forward_eval data self) = Ok actions ->
        forall i, is_Some (actions !! i) <-> i ∈ data.*1).
Proof.
  intros Hr. apply reachable_consistent in Hr.
  destruct Hr as (_ & _ & _ & _ & _ & _ & _ & _ & _ & Hcache).
  assert ((exists actions, fst (_forward_eval data self) = Ok actions) ->
          forall i, i ∈ data.*1 -> is_Some (controller_of self i)) as Hback.
  { intros [actions Hok] i Hin.
    destruct (controller_of self i) as [c|] eqn:Hc; [by eexists|].
    destruct (forward_loop_missing data ∅ self i Hin Hc) as (k & _ & Hk).
    unfold _forward_eval in Hok. rewrite Hk in Hok. done. }
  split; [split; [|exact Hback]|].
  - intros Hall.
    destruct (forward_loop_ok data ∅ self) as (actions & Hok & _).
    { intros i Hi. split; [by apply Hall | by apply Hcache, Hall]. }
    by exists actions.
  - intros actions Hok i.
    destruct (forward_loop_ok data ∅ self) as (actions' & Hok' & Hdom).
    { intros k Hk. split; [apply Hback; eauto | apply Hcache, Hback; eauto]. }
    unfold _forward_eval in Hok. rewrite Hok' in Hok. injection Hok as ->.
    rewrite Hdom. rewrite lookup_empty. split; [|by left].
    intros [Hin|Hs]; [done | by destruct Hs].
Qed.

(** X3 (frame of a batch forward).
    Whatever a forward of a batch returns, it neither adds nor removes a
    controller, it caches steers for ids of the batch only and drops none,
    and it leaves the config, the limits and the gains of the object as they
    were. *)
Theorem forward_batch_keeps_ids_and_attributes self data :
  let self' := snd (_forward_eval data self) in
  PyDict.keys (_controller_dict self') = PyDict.keys (_controller_dict self)
  /\ (forall i, is_Some (last_steer_of self' i) ->
        is_Some (last_steer_of self i) \/ i ∈ data.*1)
  /\ (forall i, is_Some (last_steer_of self i) -> is_Some (last_steer_of self' i))
  /\ _cfg self' = _cfg self
  /\ target_speed self' = target_speed self
  /\ _max_throttle self' = _max_throttle self
  /\ _max_brake self' = _max_brake self
  /\ _max_steer self' = _max_steer self
  /\ _ignore_traffic_light self' = _ignore_traffic_light self
  /\ _lateral_dict self' = _lateral_dict self
  /\ _longitudinal_dict self' = _longitudinal_dict self.
Proof.
  unfold _forward_eval. generalize (∅ : gmap Z Action). revert self.
  induction data as [|[j obs] data IH]; intros self acc.
  - simpl. split; [done|]. split; [by left|]. done.
  - rewrite forward_loop_cons.
    destruct (_forward_attributes j obs self)
      as (E1 & E2 & E3 & E4 & E5 & E6 & E7 & E8 & E9).
    pose proof (fun k => _forward_cached j obs self k) as D2.
    assert (forall i, is_Some (last_steer_of (snd (_forward j obs self)) i) ->
                      is_Some (last_steer_of self i) \/ i = j) as D1.
    { intros i. destruct (decide (i = j)) as [->|Hne]; [by right|].
      destruct (_forward_frame j obs self i Hne) as [_ ->]. by left. }
    destruct (_forward j obs self) as [[control|e] self1]; simpl in E1, E2, E3, E4,
      E5, E6, E7, E8, E9, D1, D2.
    + destruct (IH self1 (<[j := mkAction control]> acc))
        as (I1 & I2 & I3 & I4 & I5 & I6 & I7 & I8 & I9 & I10 & I11).
      rewrite I1, I4, I5, I6, I7, I8, I9, I10, I11.
      split; [done|]. split; [|split; [|done]].
      * intros i Hi. destruct (I2 i Hi) as [Hs|Hin]; [|right; by right].
        destruct (D1 i Hs) as [?| ->]; [by left | right; by left].
      * intros i Hi. by apply I3, D2.
    + simpl. split; [done|]. split; [|split; [|done]].
      * intros i Hi. destruct (D1 i Hi) as [?| ->]; [by left | right; by left].
      * intros i Hi. by apply D2.
Qed.

(** X4 (reset, then forward).
    After a reset of a list of ids, a forward of any batch over these ids
    returns actions, in either mode and from any state of the object. *)
Theorem reset_then_forward_succeeds self ids data :
  (forall i, i ∈ data.*1 -> i ∈ ids) ->
  (exists actions,
     fst (_forward_eval data (snd (_reset_eval (Some ids) self))) = Ok actions)
  /\ (exists actions,
        fst (_forward_collect data (snd (_reset_collect (Some ids) self))) = Ok actions).
Proof.
  intros Hsub. split.
  - destruct (reset_loop_spec false ids self) as (_ & Hs & _).
    destruct (forward_loop_ok data ∅ (snd (_reset_eval (Some ids) self)))
      as (actions & Hok & _); [|by exists actions].
    intros i Hi. destruct (Hs i (Hsub i Hi)) as [Hc Hl].
    split; by eexists.
  - unfold _reset_collect, bind, get.
    destruct (reset_loop_spec (cfg_noise (_cfg self)) ids self) as (_ & Hs & _).
    destruct (forward_loop_ok data ∅
                (snd (for_in ids (fun id _ => _reset id (cfg_noise (_cfg self))) tt self)))
      as (actions & Hok & _); [|by exists actions].
    intros i Hi. destruct (Hs i (Hsub i Hi)) as [Hc Hl].
    split; by eexists.
Qed.

(** X5 (aborted batch).
    A batch stops at its first id without a controller and nothing is rolled
    back: the call raises [KeyError] for that id, the ids before it have been
    forwarded (their controllers advanced, their steers cached), the ids
    after it have not. *)
Theorem forward_batch_aborts_without_rollback self before j obs rest :
  (forall i, i ∈ before.*1 ->
     is_Some (controller_of self i) /\ is_Some (last_steer_of self i)) ->
  controller_of self j = None ->
  _forward_eval (before ++ (j, obs) :: rest) self
  = (Raise (KeyError j), snd (_forward_eval before self)).
Proof.
  intros Hall Hj. unfold _forward_eval. rewrite for_in_app.
  destruct (forward_loop_ok before ∅ self Hall) as (actions & Hok & _).
  assert (j ∉ before.*1) as Hnotin.
  { intros Hin. destruct (Hall j Hin) as [[c Hc] _]. congruence. }
  destruct (forward_loop_frame before ∅ self j Hnotin) as [F1 _].
  destruct (for_in before forward_body ∅ self) as [r self1].
  simpl in Hok, F1. subst r.
  rewrite forward_loop_cons, _forward_no_controller; [done|].
  by rewrite F1.
Qed.

(** X6 (cached steer).
    After a batch that returned actions, the steer of the action of every id
    is the steer cached for that id: a tracking step caches the steer it
    returns and an emergency stop returns the steer that is cached. *)
Theorem forward_batch_returns_cached_steer self data actions :
  fst (_forward_eval data self) = Ok actions ->
  forall i a,
    actions !! i = Some a ->
    last_steer_of (snd (_forward_eval data self)) i = Some (steer (action a)).
Proof.
  intros Hok. apply (forward_loop_steer data ∅ self); [|done].
  intros i a Hi. by rewrite lookup_empty in Hi.
Qed.

End MoreProperties.

Section DictIteration.
Context {V : Type}.
Implicit Types (es : list (option (Z * V))) (d : PyDict.t V).

Lemma next_entry_live es : forall pos j k,
  PyDict.next_entry es pos = Some (j, k) -> k ∈ PyDict.live_keys es.
Proof.
  unfold PyDict.live_keys.
  induction es as [|[[k' v']|] es IH]; intros pos j k; simpl; [done| |].
  - destruct pos as [|pos].
    + intros [= _ <-]. csimpl. by left.
    + destruct (PyDict.next_entry es pos) as [[j' k'']|] eqn:Hn; [|done].
      intros [= _ <-]. csimpl. right. by apply (IH pos j').
  - destruct pos as [|pos].
    + destruct (PyDict.next_entry es 0) as [[j' k'']|] eqn:Hn; [|done].
      intros [= _ <-]. csimpl. by apply (IH 0%nat j').
    + destruct (PyDict.next_entry es pos) as [[j' k'']|] eqn:Hn; [|done].
      intros [= _ <-]. csimpl. by apply (IH pos j').
Qed.

Lemma next_entry_no_live es pos :
  PyDict.live_keys es = [] -> PyDict.next_entry es pos = None.
Proof.
  intros Hk. destruct (PyDict.next_entry es pos) as [[j k]|] eqn:Hn; [|done].
  apply next_entry_live in Hn. rewrite Hk in Hn. by apply elem_of_nil in Hn.
Qed.

Lemma length_live_keys_delete es k :
  k ∈ PyDict.live_keys es ->
  S (length (PyDict.live_keys (PyDict.delete_entry es k))) = length (PyDict.live_keys es).
Proof.
  unfold PyDict.live_keys.
  induction es as [|[[k' v']|] es IH]; csimpl.
  - by intros ?%elem_of_nil.
  - destruct (Z.eqb_spec k' k) as [->|Hne]; csimpl; [done|].
    intros [?|Hin]%elem_of_cons; [congruence|]. by rewrite IH.
  - exact IH.
Qed.

Lemma ma_used_keys d : PyDict.ma_used d = length (PyDict.keys d).
Proof. unfold PyDict.ma_used, PyDict.keys. by rewrite length_fmap. Qed.

(** Popping a key of a well-formed dict and inserting it again leaves the
    number of live entries as it was. *)
Lemma ma_used_pop_setitem d d1 k v v' :
  PyDict.wf d ->
  PyDict.pop d k = Some (v, d1) ->
  PyDict.ma_used (PyDict.setitem d1 k v') = PyDict.ma_used d.
Proof.
  intros Hwf Hpop. destruct (PyDictFacts.pop_wf _ _ _ _ Hpop Hwf) as [_ Hnone].
  rewrite !ma_used_keys, PyDictFacts.keys_setitem.
  apply PyDictFacts.contains_false in Hnone. rewrite Hnone.
  rewrite length_app. simpl.
  unfold PyDict.pop in Hpop. destruct (PyDict.getitem d k) as [v0|] eqn:Hg; [|done].
  injection Hpop as _ <-.
  apply PyDictFacts.lookup_entries_Some_elem in Hg.
  pose proof (length_live_keys_delete _ _ Hg) as Hlen.
  unfold PyDict.keys, PyDict.items in *. simpl. unfold PyDict.live_keys in Hlen. lia.
Qed.

End DictIteration.

Section MoreResets.
Context `{CoreModels}.

Lemma _reset_ma_used k noise self :
  PyDict.wf (_controller_dict self) ->
  is_Some (controller_of self k) ->
  PyDict.ma_used (_controller_dict (snd (_reset k noise self)))
  = PyDict.ma_used (_controller_dict self).
Proof.
  intros Hwf Hk. destruct (_reset_eq k noise self) as (d1 & Hd1 & ->). simpl.
  destruct Hd1 as [[Hc _]|[v Hpop]].
  - apply PyDictFacts.contains_false in Hc. unfold controller_of in Hk.
    rewrite Hc in Hk. by destruct Hk.
  - by apply (ma_used_pop_setitem _ _ _ _ _ Hwf Hpop).
Qed.

Lemma _reset_keeps_tracked k noise self i :
  is_Some (controller_of self k) ->
  is_Some (controller_of (snd (_reset k noise self)) i) <-> is_Some (controller_of self i).
Proof.
  intros Hk. destruct (decide (i = k)) as [->|Hne].
  - rewrite _reset_controller. split; [done | by eexists].
  - by destruct (_reset_frame k noise self i Hne) as [-> _].
Qed.

Lemma iter_reset_keeps_tracked noise len :
  forall di_used di_pos self,
    PyDict.wf (_controller_dict self) ->
    PyDict.ma_used (_controller_dict self) = di_used ->
    let r := iter_controller_dict di_used di_pos len (fun id => _reset id noise) self in
    (fst r = Ok tt
     \/ fst r = Raise (RuntimeError "dictionary keys changed during iteration"))
    /\ (forall i, is_Some (controller_of (snd r) i) <-> is_Some (controller_of self i)).
Proof.
  induction len as [|len IH]; intros di_used di_pos self Hwf Hused; simpl;
    rewrite Hused, Nat.eqb_refl; simpl.
  - destruct (PyDict.next_entry _ _) as [[j k]|]; simpl; [by split; [right|]|by split; [left|]].
  - destruct (PyDict.next_entry _ _) as [[j k]|] eqn:Hn; simpl; [|by split; [left|]].
    assert (is_Some (controller_of self k)) as Hk.
    { apply next_entry_live in Hn. apply not_eq_None_Some. intros Hnone.
      by apply PyDictFacts.getitem_None in Hnone. }
    unfold bind.
    pose proof (_reset_ok k noise self) as Hok.
    pose proof (_reset_ma_used k noise self Hwf Hk) as Hlen.
    pose proof (proj1 (_reset_wf k noise self Hwf)) as Hwf1.
    pose proof (fun i => _reset_keeps_tracked k noise self i Hk) as Hkeep.
    destruct (_reset k noise self) as [r self1]. simpl in Hok, Hlen, Hwf1, Hkeep.
    subst r. rewrite <- Hused in *.
    destruct (IH (PyDict.ma_used (_controller_dict self)) (S j) self1 Hwf1 Hlen)
      as [Hres Hiff].
    split; [exact Hres|]. intros i. by rewrite Hiff.
Qed.

(** X7 (reset without ids).
    A reset without ids keeps the set of ids that have a controller, and it
    either returns or raises the [RuntimeError] of a dict whose keys changed
    under its iterator: it raises no other error.  ([PyDict.wf] holds of every
    dict.) *)
Theorem reset_all_keeps_tracked_ids self :
  PyDict.wf (_controller_dict self) ->
  ((fst (_reset_eval None self) = Ok tt
    \/ fst (_reset_eval None self)
       = Raise (RuntimeError "dictionary keys changed during iteration"))
   /\ forall i, is_Some (controller_of (snd (_reset_eval None self)) i)
                <-> is_Some (controller_of self i))
  /\ ((fst (_reset_collect None self) = Ok tt
       \/ fst (_reset_collect None self)
          = Raise (RuntimeError "dictionary keys changed during iteration"))
      /\ forall i, is_Some (controller_of (snd (_reset_collect None self)) i)
                   <-> is_Some (controller_of self i)).
Proof.
  intros Hwf. split.
  - unfold _reset_eval, for_in_controller_dict, bind, get.
    by apply iter_reset_keeps_tracked.
  - unfold _reset_collect, for_in_controller_dict, bind, get.
    by apply iter_reset_keeps_tracked.
Qed.

(** X8 (reset of an empty policy).
    A reset without ids of an object in which no id has a controller
    returns and changes nothing. *)
Theorem reset_all_of_untracked_policy_is_noop self :
  PyDict.keys (_controller_dict self) = [] ->
  _reset_eval None self = (Ok tt, self) /\ _reset_collect None self = (Ok tt, self).
Proof.
  intros Hk.
  assert (PyDict.ma_used (_controller_dict self) = 0%nat) as Hused.
  { by rewrite ma_used_keys, Hk. }
  assert (forall noise,
            for_in_controller_dict (fun id => _reset id noise) self = (Ok tt, self))
    as Hloop.
  { intros noise. unfold for_in_controller_dict, bind, get. rewrite Hused. simpl.
    rewrite Hused. simpl. by rewrite next_entry_no_live. }
  split; [apply Hloop|]. unfold _reset_collect, bind, get. apply Hloop.
Qed.

(** X9 (repeated reset).
    Resetting an id twice in a row is resetting it once, as far as the
    object shows: every id has the same controller and the same cached steer
    after the second reset as after the first, and all attributes other than
    the table of the controller dict are equal. *)
Theorem reset_twice_is_reset_once self i noise :
  let s1 := snd (_reset i noise self) in
  let s2 := snd (_reset i noise s1) in
  (forall j, controller_of s2 j = controller_of s1 j)
  /\ set_controller_dict (_controller_dict s1) s2 = s1.
Proof.
  intros s1 s2. split.
  - intros j. destruct (decide (j = i)) as [->|Hne].
    + unfold s2. rewrite _reset_controller.
      destruct (fresh_model_reset i noise s1 (resolved_reset i noise self)) as [_ ->].
      unfold s1. by rewrite _reset_controller.
    + unfold s2. by destruct (_reset_frame i noise s1 j Hne) as [-> _].
  - subst s2 s1.
    destruct (_reset_eq i noise self) as (d1 & _ & ->). simpl.
    match goal with
    | |- context [_reset i noise ?s] =>
        destruct (_reset_eq i noise s) as (d2 & _ & ->)
    end.
    unfold set_controller_dict. simpl. by rewrite insert_insert_eq.
Qed.

(** X10 (throttle cap).
    The throttle cap of a tracking step, as the code applies it: the command
    of the controller comes back with its throttle lowered to [0.3] when its
    steer is above [0.1] and the speed above [15], and unchanged otherwise;
    the throttle is never raised. *)
Theorem curve_cap_applies_exactly_to_fast_right_turns self i obs c :
  controller_of self i = Some c ->
  ~ emergency (_ignore_traffic_light self) obs ->
  let raw :=
    (controller_forward c (speed obs) (location obs) (orientation obs)
       (py_min (target_speed self) (speed_limit obs)) (target obs)
       (np_random self)).1.1 in
  exists control,
    fst (_forward i obs self) = Ok control
    /\ ((0.1 < steer raw)%Q /\ (15 < speed obs)%Q ->
          control = set_throttle (Qmin (throttle raw) 0.3) raw)
    /\ (~ ((0.1 < steer raw)%Q /\ (15 < speed obs)%Q) -> control = raw)
    /\ (throttle control <= throttle raw)%Q.
Proof.
  intros Hc He%emergencyb_false raw.
  rewrite (_forward_tracking i obs self c Hc He). subst raw.
  destruct (controller_forward _ _ _ _ _ _ _) as [[raw c'] g']. simpl.
  eexists. split; [reflexivity|].
  destruct (py_gt (steer raw) 0.1) eqn:Hs; destruct (py_gt (speed obs) 15) eqn:Hv; simpl.
  - rewrite py_min_Qmin. split; [done|]. split.
    + intros Hn. exfalso. apply Hn. split; by apply py_gt_iff.
    + apply Q.le_min_l.
  - split; [|split; [done | apply Qle_refl]].
    intros [_ Hv'%py_gt_iff]. congruence.
  - split; [|split; [done | apply Qle_refl]].
    intros [Hs'%py_gt_iff _]. congruence.
  - split; [|split; [done | apply Qle_refl]].
    intros [Hs'%py_gt_iff _]. congruence.
Qed.

End MoreResets.

(* ===================================================================== *)
(** ** Properties of the environment wrappers *)
(* ===================================================================== *)

Section EnvWrapperFacts.
Import EnvWrapper.
Context `{DataHelper}.

Lemma is_int64_iff z : is_int64 z = true <-> int64 z.
Proof.
  unfold is_int64, int64. rewrite andb_true_iff, Z.leb_le, Z.ltb_lt. done.
Qed.

Lemma int64_quotient id : int64 id -> int64 (id mod 3) /\ int64 (id / 3).
Proof.
  unfold int64. intros Hid.
  pose proof (Z.mod_pos_bound id 3 ltac:(lia)) as Hr.
  pose proof (Z.div_mod id 3 ltac:(lia)) as Hq.
  split; lia.
Qed.

Lemma acc_lookup_discrete r :
  0 <= r < 3 ->
  exists acc,
    dict_literal_get [(0, (0, 1)%Q); (1, (0.25, 0)%Q); (2, (0.75, 0)%Q)] r = Done acc
    /\ (0 <= fst acc)%Q /\ (0 <= snd acc)%Q /\ (fst acc == 0 \/ snd acc == 0)%Q.
Proof.
  intros Hr. assert (r = 0 \/ r = 1 \/ r = 2) as [->|[->| ->]] by lia;
    eexists; (split; [reflexivity|]); simpl;
    (split; [done|]); (split; [done|]); first [by left | by right].
Qed.

Lemma acc_lookup_multi r :
  (0 <= r < 3 ->
   exists acc,
     dict_literal_get [(0, (0, 1)%Q); (1, (0.3, 0)%Q); (2, (0.75, 0)%Q)] r = Done acc
     /\ (0 <= fst acc)%Q /\ (0 <= snd acc)%Q /\ (fst acc == 0 \/ snd acc == 0)%Q)
  /\ (~ 0 <= r < 3 ->
      dict_literal_get [(0, (0, 1)%Q); (1, (0.3, 0)%Q); (2, (0.75, 0)%Q)] r
      = Raised (KeyError r)).
Proof.
  split.
  - intros Hr. assert (r = 0 \/ r = 1 \/ r = 2) as [->|[->| ->]] by lia;
      eexists; (split; [reflexivity|]); simpl;
      (split; [done|]); (split; [done|]); first [by left | by right].
  - intros Hr. cbn [dict_literal_get].
    repeat match goal with
           | |- context [Z.eqb ?k r] => destruct (Z.eqb_spec k r); [lia|]
           end.
    done.
Qed.

Lemma steer_lookup q :
  (0 <= q <= 6 ->
   exists steer,
     dict_literal_get
       [(0, (-0.8)%Q); (1, (-0.5)%Q); (2, (-0.2)%Q); (3, 0%Q); (4, 0.2%Q);
        (5, 0.5%Q); (6, 0.8%Q)] q = Done steer
     /\ (-0.8 <= steer <= 0.8)%Q)
  /\ (~ 0 <= q <= 6 ->
      dict_literal_get
        [(0, (-0.8)%Q); (1, (-0.5)%Q); (2, (-0.2)%Q); (3, 0%Q); (4, 0.2%Q);
         (5, 0.5%Q); (6, 0.8%Q)] q = Raised (KeyError q)).
Proof.
  split.
  - intros Hq.
    assert (q = 0 \/ q = 1 \/ q = 2 \/ q = 3 \/ q = 4 \/ q = 5 \/ q = 6)
      as [->|[->|[->|[->|[->|[->| ->]]]]]] by lia;
      eexists; (split; [reflexivity|]); split; done.
  - intros Hq. cbn [dict_literal_get].
    repeat match goal with
           | |- context [Z.eqb ?k q] => destruct (Z.eqb_spec k q); [lia|]
           end.
    done.
Qed.

Lemma div3_range id : 0 <= id / 3 <= 6 <-> 0 <= id < 21.
Proof.
  split.
  - intros [Hlo Hhi]. split.
    + destruct (Z_lt_le_dec id 0) as [Hneg|]; [|done].
      assert (id / 3 < 0) by (apply Z.div_lt_upper_bound; lia). lia.
    + destruct (Z_lt_le_dec id 21) as [|Hbig]; [done|].
      assert (7 <= id / 3) by (apply Z.div_le_lower_bound; lia). lia.
  - intros Hid.
    assert (id / 3 < 7) by (apply Z.div_lt_upper_bound; lia).
    assert (0 <= id / 3) by (apply Z.div_pos; lia). lia.
Qed.

Lemma discrete_step_action_valid id a :
  DiscreteBenchmarkEnvWrapper.step_action id = Done a -> 0 <= id < 21.
Proof.
  intros Ha. apply div3_range.
  destruct (decide (0 <= id / 3 <= 6)) as [|Hn]; [done|].
  unfold DiscreteBenchmarkEnvWrapper.step_action in Ha.
  destruct (is_int64 id); [|done].
  destruct (acc_lookup_discrete (id mod 3)) as (acc & Hacc & _).
  { apply Z.mod_pos_bound. lia. }
  rewrite Hacc in Ha.
  by rewrite (proj2 (steer_lookup (id / 3)) Hn) in Ha.
Qed.

Lemma ids_0_to_20 id :
  0 <= id < 21 ->
  id = 0 \/ id = 1 \/ id = 2 \/ id = 3 \/ id = 4 \/ id = 5 \/ id = 6 \/ id = 7
  \/ id = 8 \/ id = 9 \/ id = 10 \/ id = 11 \/ id = 12 \/ id = 13 \/ id = 14
  \/ id = 15 \/ id = 16 \/ id = 17 \/ id = 18 \/ id = 19 \/ id = 20.
Proof. lia. Qed.

(** X11 (distinct actions).
    The twenty-one ids of [DiscreteBenchmarkEnvWrapper.step] build
    twenty-one different actions: two ids whose actions have the same steer
    and the same throttle are the same id. *)
Theorem discrete_ids_build_distinct_actions id1 id2 a1 a2 :
  DiscreteBenchmarkEnvWrapper.step_action id1 = Done a1 ->
  DiscreteBenchmarkEnvWrapper.step_action id2 = Done a2 ->
  (steer a1 == steer a2)%Q ->
  (throttle a1 == throttle a2)%Q ->
  id1 = id2.
Proof.
  intros H1 H2 Hs Ht.
  pose proof (ids_0_to_20 id1 (discrete_step_action_valid id1 a1 H1)) as E1.
  pose proof (ids_0_to_20 id2 (discrete_step_action_valid id2 a2 H2)) as E2.
  repeat match goal with
         | E : _ \/ _ |- _ => destruct E as [E|E]
         end; subst id1 id2;
    vm_compute in H1, H2; simplify_eq;
    vm_compute in Hs, Ht; first [reflexivity | discriminate].
Qed.


(** X13 (multi-discrete ids).
    For an array of 64-bit integers, [MultiDiscreteBenchmarkEnvWrapper.step]
    builds an action exactly when the first entry is an acceleration id in
    [0..2] and the second a steer id in [0..6]; a bad acceleration id raises
    [KeyError] before the steer id is looked at, and an array of a single
    entry is squeezed to a scalar and raises [IndexError]. *)
Theorem multi_discrete_step_action_accepts :
  (forall acc_id steer_id rest,
     Forall int64 (acc_id :: steer_id :: rest) ->
     0 <= acc_id <= 2 -> 0 <= steer_id <= 6 ->
     exists a,
       MultiDiscreteBenchmarkEnvWrapper.step_action (acc_id :: steer_id :: rest) = Done a)
  /\ (forall acc_id steer_id rest,
        Forall int64 (acc_id :: steer_id :: rest) ->
        ~ 0 <= acc_id <= 2 ->
        MultiDiscreteBenchmarkEnvWrapper.step_action (acc_id :: steer_id :: rest)
        = Raised (KeyError acc_id))
  /\ (forall acc_id steer_id rest,
        Forall int64 (acc_id :: steer_id :: rest) ->
        0 <= acc_id <= 2 -> ~ 0 <= steer_id <= 6 ->
        MultiDiscreteBenchmarkEnvWrapper.step_action (acc_id :: steer_id :: rest)
        = Raised (KeyError steer_id))
  /\ (forall id,
        int64 id ->
        exists i,
          MultiDiscreteBenchmarkEnvWrapper.step_action [id] = Raised (IndexError i)).
Proof.
  split; [|split; [|split]].
  - intros acc_id steer_id rest Hfit Ha Hs.
    unfold MultiDiscreteBenchmarkEnvWrapper.step_action.
    rewrite to_ndarray_int64 by done.
    cbn [squeezed_get nth_error].
    destruct (proj1 (acc_lookup_multi acc_id)) as (acc & -> & _); [lia|].
    destruct (proj1 (steer_lookup steer_id) Hs) as (s & -> & _). by eexists.
  - intros acc_id steer_id rest Hfit Ha.
    unfold MultiDiscreteBenchmarkEnvWrapper.step_action.
    rewrite to_ndarray_int64 by done.
    cbn [squeezed_get nth_error].
    by rewrite (proj2 (acc_lookup_multi acc_id)) by lia.
  - intros acc_id steer_id rest Hfit Ha Hs.
    unfold MultiDiscreteBenchmarkEnvWrapper.step_action.
    rewrite to_ndarray_int64 by done.
    cbn [squeezed_get nth_error].
    destruct (proj1 (acc_lookup_multi acc_id)) as (acc & -> & _); [lia|].
    by rewrite (proj2 (steer_lookup steer_id) Hs).
  - intros id Hfit.
    unfold MultiDiscreteBenchmarkEnvWrapper.step_action.
    rewrite to_ndarray_int64 by (done || by apply Forall_singleton).
    by exists 0.
Qed.

(** X14 (numbering of the pairs).
    A 64-bit id of the discrete wrapper numbers the pairs of the
    multi-discrete one as [id = acc_id + 3 * steer_id]: the two wrappers
    build the same action, or raise the same error, unless the acceleration
    id is [1], where the throttle is [0.25] in the one and [0.3] in the
    other. *)
Theorem discrete_id_numbers_multi_discrete_pairs id :
  int64 id ->
  (id mod 3 <> 1 ->
   DiscreteBenchmarkEnvWrapper.step_action id
   = MultiDiscreteBenchmarkEnvWrapper.step_action [id mod 3; id / 3])
  /\ (id mod 3 = 1 ->
      (forall e,
         DiscreteBenchmarkEnvWrapper.step_action id = Raised e ->
         MultiDiscreteBenchmarkEnvWrapper.step_action [id mod 3; id / 3] = Raised e)
      /\ (forall a,
            DiscreteBenchmarkEnvWrapper.step_action id = Done a ->
            throttle a = 0.25%Q
            /\ MultiDiscreteBenchmarkEnvWrapper.step_action [id mod 3; id / 3]
               = Done (set_throttle 0.3 a))).
Proof.
  intros Hid.
  pose proof (Z.mod_pos_bound id 3 ltac:(lia)) as Hr.
  destruct (int64_quotient id Hid) as [Hfit_r Hfit_q].
  unfold DiscreteBenchmarkEnvWrapper.step_action,
    MultiDiscreteBenchmarkEnvWrapper.step_action.
  rewrite (proj2 (is_int64_iff id) Hid).
  rewrite (to_ndarray_int64 [id mod 3; id / 3]);
    [|done|apply Forall_cons_2; [done | by apply Forall_singleton]].
  cbn [squeezed_get nth_error].
  match goal with
  | |- context [dict_literal_get ?t (id / 3)] =>
      generalize (dict_literal_get t (id / 3))
  end.
  intros looked_up. split.
  - intros Hne. assert (id mod 3 = 0 \/ id mod 3 = 2) as [->| ->] by lia;
      by destruct looked_up.
  - intros ->. destruct looked_up as [s|e0]; simpl; split; try done.
    by intros a [= <-].
Qed.


Context `{BenchmarkEnvWrapper}.

(** X16 (discrete ids).
    [DiscreteBenchmarkEnvWrapper.step] accepts the ids [0] to [20]: for
    these it steps the wrapped environment with the action it has built, and
    for every other 64-bit id it raises [KeyError(id // 3)] without stepping
    the environment. *)
Theorem discrete_step_accepts_ids_0_to_20 id env :
  (0 <= id < 21 ->
   exists action,
     DiscreteBenchmarkEnvWrapper.step_action id = Done action
     /\ DiscreteBenchmarkEnvWrapper.step id env
        = (Done (obs_out (super_step env action).1.1, (super_step env action).1.2),
           (super_step env action).2))
  /\ (int64 id ->
      ~ 0 <= id < 21 ->
      DiscreteBenchmarkEnvWrapper.step id env = (Raised (KeyError (id / 3)), env)).
Proof.
  unfold DiscreteBenchmarkEnvWrapper.step, DiscreteBenchmarkEnvWrapper.step_action.
  destruct (acc_lookup_discrete (id mod 3)) as (acc & Hacc & _).
  { apply Z.mod_pos_bound. lia. }
  split.
  - intros Hid. rewrite (proj2 (is_int64_iff id)) by (unfold int64; lia).
    rewrite Hacc.
    destruct (proj1 (steer_lookup (id / 3))) as (steer & -> & _).
    { by apply div3_range. }
    eexists. split; [reflexivity|]. unfold step_with.
    by destruct (super_step env _) as [[obs rest] env'].
  - intros Hfit Hid. rewrite (proj2 (is_int64_iff id) Hfit), Hacc.
    rewrite (proj2 (steer_lookup (id / 3))); [done|].
    intros Hq. by apply Hid, div3_range.
Qed.

(** A [step] of any of the three wrappers that cannot build its action
    raises the error and does not step the wrapped environment. *)
Lemma wrapper_step_error_leaves_environment env :
  (forall id e,
     DiscreteBenchmarkEnvWrapper.step_action id = Raised e ->
     DiscreteBenchmarkEnvWrapper.step id env = (Raised e, env))
  /\ (forall action_ids e,
        MultiDiscreteBenchmarkEnvWrapper.step_action action_ids = Raised e ->
        MultiDiscreteBenchmarkEnvWrapper.step action_ids env = (Raised e, env))
  /\ (forall action e,
        ContinuousBenchmarkEnvWrapper.step_action action = Raised e ->
        ContinuousBenchmarkEnvWrapper.step action env = (Raised e, env)).
Proof.
  unfold DiscreteBenchmarkEnvWrapper.step, MultiDiscreteBenchmarkEnvWrapper.step,
    ContinuousBenchmarkEnvWrapper.step.
  split; [|split]; intros x e ->; done.
Qed.

End EnvWrapperFacts.

(* ===================================================================== *)
(** ** Properties of the collection loop *)
(* ===================================================================== *)

Section CollectDataFacts.
Context {Collector Episode : Type}.
Context (collect : Collector -> Z -> list Episode * Collector).

Lemma write_new_data_count E (new_data : list Episode) :
  forall c w,
    c <= E ->
    let r := CollectData.write_new_data E new_data c w in
    c <= r.1 <= E + 1
    /\ r.1 <= c + Z.of_nat (length new_data)
    /\ (r.1 <= E -> r.1 = c + Z.of_nat (length new_data))
    /\ (new_data <> [] -> c < r.1).
Proof.
  induction new_data as [|data new_data IH]; intros c w Hc; simpl.
  - split; [lia|]. split; [lia|]. split; [lia | done].
  - destruct (c + 1 >? E) eqn:Hgt; simpl.
    + apply Z.gtb_lt in Hgt.
      split; [lia|]. split; [lia|]. split; [intros ?; lia | intros _; lia].
    + assert (c + 1 <= E) as Hle by (rewrite Z.gtb_ltb in Hgt; lia).
      destruct (IH (c + 1) (w ++ [(c + 1, data)]) Hle) as (I1 & I2 & I3 & I4).
      split; [lia|]. split; [lia|]. split; [|intros _; lia].
      intros Hr. specialize (I3 Hr). lia.
Qed.

Lemma write_new_data_numbers E (new_data : list Episode) :
  forall c w,
    0 <= c ->
    w.*1 = seqZ 1 c ->
    (CollectData.write_new_data E new_data c w).2.*1
    = seqZ 1 (CollectData.write_new_data E new_data c w).1.
Proof.
  induction new_data as [|data new_data IH]; intros c w Hc Hw; simpl; [done|].
  assert ((w ++ [(c + 1, data)]).*1 = seqZ 1 (c + 1)) as Hw1.
  { rewrite fmap_app, Hw, seqZ_app by lia. simpl. f_equal.
    rewrite seqZ_cons by lia. rewrite seqZ_nil by lia. f_equal. lia. }
  destruct (c + 1 >? E); simpl; [done|]. apply IH; [lia | done].
Qed.

Lemma collect_loop_spec rounds :
  forall env_num E collector c w N w' collector',
    0 <= c -> c <= E + 1 ->
    w.*1 = seqZ 1 c ->
    CollectData.collect_loop collect rounds env_num E collector c w
    = Some (N, w', collector') ->
    w'.*1 = seqZ 1 N /\ E <= N <= E + 1.
Proof.
  induction rounds as [|rounds IH];
    intros env_num E collector c w N w' collector' Hc HcE Hw Hrun; simpl in Hrun.
  - destruct (c <? E) eqn:Hlt; [done|]. apply Z.ltb_ge in Hlt.
    injection Hrun as <- <- <-. split; [done | lia].
  - destruct (c <? E) eqn:Hlt.
    + apply Z.ltb_lt in Hlt.
      destruct (collect collector env_num) as [new_data collector1].
      pose proof (write_new_data_count E new_data c w ltac:(lia)) as (C1 & _).
      pose proof (write_new_data_numbers E new_data c w Hc Hw) as Hnum.
      destruct (CollectData.write_new_data E new_data c w) as [c1 w1].
      simpl in C1, Hnum.
      apply (IH env_num E collector1 c1 w1 N w' collector'); [lia|lia|done|done].
    + apply Z.ltb_ge in Hlt. injection Hrun as <- <- <-. split; [done | lia].
Qed.

Lemma collect_loop_from_start rounds env_num episode_nums collector N written collector' :
  CollectData.main collect rounds env_num episode_nums collector
  = Some (N, written, collector') ->
  written.*1 = seqZ 1 N
  /\ (episode_nums <= 0 -> N = 0)
  /\ (0 < episode_nums -> episode_nums <= N <= episode_nums + 1).
Proof.
  unfold CollectData.main. intros Hrun.
  destruct (Z_le_gt_dec episode_nums 0) as [Hle|Hgt].
  - assert (N = 0 /\ written = []) as [-> ->].
    { destruct rounds; simpl in Hrun;
        (destruct (0 <? episode_nums) eqn:Hlt; [apply Z.ltb_lt in Hlt; lia|]);
        by injection Hrun as <- <- <-. }
    split; [done|]. split; [done | lia].
  - destruct (collect_loop_spec rounds env_num episode_nums collector 0 [] N written
                collector') as [Hnum Hbound]; [lia|lia|done|done|].
    split; [done|]. split; [lia | done].
Qed.

Lemma collect_loop_returns rounds :
  forall env_num E collector c w,
    (forall col, fst (collect col env_num) <> []) ->
    (Z.to_nat (E - c) <= rounds)%nat ->
    is_Some (CollectData.collect_loop collect rounds env_num E collector c w).
Proof.
  induction rounds as [|rounds IH]; intros env_num E collector c w Hne Hr; simpl.
  - destruct (c <? E) eqn:Hlt; [|by eexists]. apply Z.ltb_lt in Hlt. lia.
  - destruct (c <? E) eqn:Hlt; [|by eexists]. apply Z.ltb_lt in Hlt.
    pose proof (Hne collector) as Hne1.
    destruct (collect collector env_num) as [new_data collector1]. simpl in Hne1.
    pose proof (write_new_data_count E new_data c w ltac:(lia)) as (_ & _ & _ & C4).
    specialize (C4 Hne1).
    destruct (CollectData.write_new_data E new_data c w) as [c1 w1]. simpl in C4.
    apply IH; [done | lia].
Qed.

(** X17 (collection loop).
    The loop of [main] writes the episodes under the numbers
    [1, 2, ..., N] in this order, where [N] is [0] when [episode_nums] is not
    positive and [episode_nums] or [episode_nums + 1] otherwise: it never
    stops short and overshoots by at most one episode.  When the collector
    never returns an empty list, the loop ends after at most [episode_nums]
    calls of the collector. *)
Theorem main_writes_requested_episodes rounds env_num episode_nums collector :
  (forall N written collector',
     CollectData.main collect rounds env_num episode_nums collector
     = Some (N, written, collector') ->
     written.*1 = seqZ 1 N
     /\ (episode_nums <= 0 -> N = 0)
     /\ (0 < episode_nums -> episode_nums <= N <= episode_nums + 1))
  /\ ((forall col, fst (collect col env_num) <> []) ->
      (Z.to_nat episode_nums <= rounds)%nat ->
      exists result,
        CollectData.main collect rounds env_num episode_nums collector = Some result).
Proof.
  split.
  - intros N written collector' Hrun. by apply collect_loop_from_start in Hrun.
  - intros Hne Hr.
    apply (collect_loop_returns rounds env_num episode_nums collector 0 []); [done|].
    by rewrite Z.sub_0_r.
Qed.

Lemma collect_loop_full_batches rounds :
  forall env_num E collector c w N w' collector',
    0 < env_num ->
    (forall col, length (fst (collect col env_num)) = Z.to_nat env_num) ->
    ((env_num | c) /\ 0 <= c <= E) \/ (c = E + 1 /\ ~ (env_num | E)) ->
    CollectData.collect_loop collect rounds env_num E collector c w
    = Some (N, w', collector') ->
    ((env_num | E) -> N = E) /\ (~ (env_num | E) -> N = E + 1).
Proof.
  induction rounds as [|rounds IH];
    intros env_num E collector c w N w' collector' Hb Hfull Hinv Hrun;
    simpl in Hrun.
  - destruct (c <? E) eqn:Hlt; [done|]. apply Z.ltb_ge in Hlt.
    injection Hrun as <- <- <-.
    destruct Hinv as [[Hdiv Hc]|[-> Hnd]].
    + assert (c = E) as -> by lia. by split.
    + by split.
  - destruct (c <? E) eqn:Hlt.
    + apply Z.ltb_lt in Hlt.
      destruct Hinv as [[Hdiv Hc]|[-> _]]; [|lia].
      specialize (Hfull collector) as Hlen.
      destruct (collect collector env_num) as [new_data collector1]. simpl in Hlen.
      pose proof (write_new_data_count E new_data c w ltac:(lia)) as (C1 & C2 & C3 & _).
      destruct (CollectData.write_new_data E new_data c w) as [c1 w1].
      simpl in C1, C2, C3. rewrite Hlen, Z2Nat.id in C2, C3 by lia.
      apply (IH env_num E collector1 c1 w1 N w' collector'); [done|done| |done].
      destruct (Z_le_gt_dec c1 E) as [Hle|Hgt].
      * left. rewrite (C3 Hle) in *. split; [|lia].
        apply Z.divide_add_r; [done | apply Z.divide_refl].
      * right. split; [lia|].
        intros [k Hk]. destruct Hdiv as [j Hj]. subst E c.
        assert (j < k) by nia. assert (k < j + 1) by nia. lia.
    + apply Z.ltb_ge in Hlt. injection Hrun as <- <- <-.
      destruct Hinv as [[Hdiv Hc]|[-> Hnd]].
      * assert (c = E) as -> by lia. by split.
      * by split.
Qed.

(** X18 (overshoot of the loop).
    When every call of the collector returns [env_num] episodes, [main]
    ends after at most [episode_nums] calls and has then written exactly
    [episode_nums] episodes if [env_num] divides [episode_nums], and one
    episode more if it does not. *)
Theorem main_overshoots_unless_env_num_divides rounds env_num episode_nums collector :
  0 < env_num ->
  0 < episode_nums ->
  (forall col, length (fst (collect col env_num)) = Z.to_nat env_num) ->
  (Z.to_nat episode_nums <= rounds)%nat ->
  exists N written collector',
    CollectData.main collect rounds env_num episode_nums collector
    = Some (N, written, collector')
    /\ written.*1 = seqZ 1 N
    /\ ((env_num | episode_nums) -> N = episode_nums)
    /\ (~ (env_num | episode_nums) -> N = episode_nums + 1).
Proof.
  intros Hb HE Hfull Hr.
  destruct (collect_loop_returns rounds env_num episode_nums collector 0 [])
    as [[[N written] collector'] Hrun].
  { intros col Hnil. specialize (Hfull col). rewrite Hnil in Hfull. simpl in Hfull. lia. }
  { by rewrite Z.sub_0_r. }
  exists N, written, collector'. split; [exact Hrun|].
  split; [exact (proj1 (collect_loop_from_start _ _ _ _ _ _ _ Hrun))|].
  apply (collect_loop_full_batches rounds env_num episode_nums collector 0 [] N written
           collector'); [done|done| |done].
  left. split; [apply Z.divide_0_r | lia].
Qed.

End CollectDataFacts.

(* ===================================================================== *)
(** ** Instances of the further properties *)
(* ===================================================================== *)

Lemma forward_batch_succeeds_iff_all_tracked_witness :
  reachable config policy1
  /\ exists actions, fst (_forward_eval [(0, left_turn)] policy1) = Ok actions.
Proof.
  split; [exact policy1_reachable|].
  apply (proj1 (proj1 (forward_batch_succeeds_iff_all_tracked config policy1
                         [(0, left_turn)] policy1_reachable))).
  intros i Hi. apply list_elem_of_singleton in Hi. subst i.
  eexists. vm_compute. reflexivity.
Defined.

Lemma reset_then_forward_succeeds_witness :
  (forall i, i ∈ [(1, red_light); (0, left_turn)].*1 -> i ∈ [0; 1])
  /\ exists actions,
       fst (_forward_eval [(1, red_light); (0, left_turn)]
              (snd (_reset_eval (Some [0; 1]) policy0))) = Ok actions.
Proof.
  assert (forall i, i ∈ [(1, red_light); (0, left_turn)].*1 -> i ∈ [0; 1]) as Hsub.
  { intros i Hi. simpl in Hi.
    apply elem_of_cons in Hi as [->|Hi]; [right; left|].
    apply list_elem_of_singleton in Hi. subst i. left. }
  split; [exact Hsub|].
  exact (proj1 (reset_then_forward_succeeds policy0 [0; 1] _ Hsub)).
Defined.

Lemma forward_batch_aborts_without_rollback_witness :
  (forall i, i ∈ [(0, left_turn)].*1 ->
     is_Some (controller_of policy1 i) /\ is_Some (last_steer_of policy1 i))
  /\ controller_of policy1 1 = None
  /\ _forward_eval ([(0, left_turn)] ++ (1, red_light) :: [(0, red_light)]) policy1
     = (Raise (KeyError 1), snd (_forward_eval [(0, left_turn)] policy1)).
Proof.
  assert (forall i, i ∈ [(0, left_turn)].*1 ->
            is_Some (controller_of policy1 i) /\ is_Some (last_steer_of policy1 i))
    as Hall.
  { intros i Hi. apply list_elem_of_singleton in Hi. subst i.
    split; eexists; vm_compute; reflexivity. }
  assert (controller_of policy1 1 = None) as Hnone by (vm_compute; reflexivity).
  split; [exact Hall|]. split; [exact Hnone|].
  exact (forward_batch_aborts_without_rollback policy1 [(0, left_turn)] 1 red_light
           [(0, red_light)] Hall Hnone).
Defined.

Lemma forward_batch_returns_cached_steer_witness :
  exists actions,
    fst (_forward_eval [(0, left_turn)] policy1) = Ok actions
    /\ forall i a,
         actions !! i = Some a ->
         last_steer_of (snd (_forward_eval [(0, left_turn)] policy1)) i
         = Some (steer (action a)).
Proof.
  destruct (fst (_forward_eval [(0, left_turn)] policy1)) as [actions|e] eqn:Hok.
  - exists actions. split; [reflexivity|].
    exact (forward_batch_returns_cached_steer policy1 [(0, left_turn)] actions Hok).
  - vm_compute in Hok. discriminate Hok.
Defined.

Lemma reset_all_keeps_tracked_ids_witness :
  PyDict.wf (_controller_dict policy1)
  /\ forall i, is_Some (controller_of (snd (_reset_eval None policy1)) i)
               <-> is_Some (controller_of policy1 i).
Proof.
  assert (PyDict.wf (_controller_dict policy1)) as Hwf.
  { vm_compute. apply NoDup_singleton. }
  split; [exact Hwf|].
  exact (proj2 (proj1 (reset_all_keeps_tracked_ids policy1 Hwf))).
Defined.

Lemma reset_all_of_untracked_policy_is_noop_witness :
  PyDict.keys (_controller_dict policy0) = []
  /\ _reset_eval None policy0 = (Ok tt, policy0).
Proof.
  assert (PyDict.keys (_controller_dict policy0) = []) as Hk by reflexivity.
  split; [exact Hk|].
  exact (proj1 (reset_all_of_untracked_policy_is_noop policy0 Hk)).
Defined.

Lemma curve_cap_applies_exactly_to_fast_right_turns_witness :
  ~ emergency (_ignore_traffic_light policy1) Stubs.right_turn
  /\ exists c control,
       controller_of policy1 0 = Some c
       /\ fst (_forward 0 Stubs.right_turn policy1) = Ok control
       /\ (throttle control
           <= throttle
                (controller_forward c (speed Stubs.right_turn)
                   (location Stubs.right_turn) (orientation Stubs.right_turn)
                   (py_min (target_speed policy1) (speed_limit Stubs.right_turn))
                   (target Stubs.right_turn) (np_random policy1)).1.1)%Q.
Proof.
  assert (~ emergency (_ignore_traffic_light policy1) Stubs.right_turn) as He.
  { apply emergencyb_false. reflexivity. }
  split; [exact He|].
  destruct (controller_of policy1 0) as [c|] eqn:Hc; [|vm_compute in Hc; discriminate Hc].
  destruct (curve_cap_applies_exactly_to_fast_right_turns policy1 0 Stubs.right_turn c
              Hc He) as (control & Hf & _ & _ & Hle).
  exists c, control. split; [reflexivity|]. split; [exact Hf | exact Hle].
Defined.

Lemma discrete_step_accepts_ids_0_to_20_witness :
  0 <= 7 < 21
  /\ EnvWrapper.DiscreteBenchmarkEnvWrapper.step 7 (@nil Control : @EnvState Stubs.env)
     = (EnvWrapper.Done ({| EnvWrapper.birdview := tt; EnvWrapper.speed := 2 |}, tt),
        [{| steer := (-0.2)%Q; throttle := 0.25; brake := 0 |}])
  /\ EnvWrapper.int64 (-1)
  /\ ~ 0 <= -1 < 21
  /\ EnvWrapper.DiscreteBenchmarkEnvWrapper.step (-1) (@nil Control : @EnvState Stubs.env)
     = (EnvWrapper.Raised (EnvWrapper.KeyError (-1)), []).
Proof.
  assert (0 <= 7 < 21) as Hin by lia.
  assert (EnvWrapper.int64 (-1)) as Hfit by (unfold EnvWrapper.int64; lia).
  assert (~ 0 <= -1 < 21) as Hout by lia.
  split; [exact Hin|].
  destruct (proj1 (discrete_step_accepts_ids_0_to_20 7
                     (@nil Control : @EnvState Stubs.env)) Hin) as (action & Ha & Hs).
  split; [rewrite Hs; vm_compute in Ha; injection Ha as <-; reflexivity|].
  split; [exact Hfit|]. split; [exact Hout|].
  exact (proj2 (discrete_step_accepts_ids_0_to_20 (-1)
                  (@nil Control : @EnvState Stubs.env)) Hfit Hout).
Defined.

Lemma discrete_ids_build_distinct_actions_witness :
  (exists a1 a2,
     EnvWrapper.DiscreteBenchmarkEnvWrapper.step_action (3 + 4) = EnvWrapper.Done a1
     /\ EnvWrapper.DiscreteBenchmarkEnvWrapper.step_action 7 = EnvWrapper.Done a2
     /\ (steer a1 == steer a2)%Q /\ (throttle a1 == throttle a2)%Q)
  /\ 3 + 4 = 7.
Proof.
  pose (a := {| steer := (-0.2)%Q; throttle := 0.25; brake := 0 |}).
  assert (EnvWrapper.DiscreteBenchmarkEnvWrapper.step_action (3 + 4) = EnvWrapper.Done a)
    as H1 by reflexivity.
  assert (EnvWrapper.DiscreteBenchmarkEnvWrapper.step_action 7 = EnvWrapper.Done a)
    as H2 by reflexivity.
  assert (steer a == steer a)%Q as Hs by reflexivity.
  assert (throttle a == throttle a)%Q as Ht by reflexivity.
  split; [exists a, a; repeat split; assumption|].
  exact (discrete_ids_build_distinct_actions (3 + 4) 7 a a H1 H2 Hs Ht).
Defined.


Lemma multi_discrete_step_action_accepts_witness :
  Forall EnvWrapper.int64 [1; 6] /\ 0 <= 1 <= 2 /\ 0 <= 6 <= 6
  /\ (exists a,
        EnvWrapper.MultiDiscreteBenchmarkEnvWrapper.step_action [1; 6] = EnvWrapper.Done a)
  /\ Forall EnvWrapper.int64 [3; 9] /\ ~ 0 <= 3 <= 2
  /\ EnvWrapper.MultiDiscreteBenchmarkEnvWrapper.step_action [3; 9]
     = EnvWrapper.Raised (EnvWrapper.KeyError 3)
  /\ EnvWrapper.int64 2
  /\ exists i,
       EnvWrapper.MultiDiscreteBenchmarkEnvWrapper.step_action [2]
       = EnvWrapper.Raised (EnvWrapper.IndexError i).
Proof.
  assert (forall z, - 2 ^ 63 <= z < 2 ^ 63 -> EnvWrapper.int64 z) as Hint by done.
  assert (Forall EnvWrapper.int64 [1; 6]) as F1.
  { apply Forall_cons_2; [apply Hint; lia|]. apply Forall_singleton, Hint. lia. }
  assert (Forall EnvWrapper.int64 [3; 9]) as F2.
  { apply Forall_cons_2; [apply Hint; lia|]. apply Forall_singleton, Hint. lia. }
  assert (EnvWrapper.int64 2) as F3 by (apply Hint; lia).
  assert (0 <= 1 <= 2) as H1 by lia. assert (0 <= 6 <= 6) as H2 by lia.
  assert (~ 0 <= 3 <= 2) as H3 by lia.
  destruct (@multi_discrete_step_action_accepts Stubs.data_helper)
    as (Hok & Hacc & _ & Hshort).
  split; [exact F1|]. split; [exact H1|]. split; [exact H2|].
  split; [exact (Hok 1 6 [] F1 H1 H2)|].
  split; [exact F2|]. split; [exact H3|]. split; [exact (Hacc 3 9 [] F2 H3)|].
  split; [exact F3 | exact (Hshort 2 F3)].
Defined.

Lemma discrete_id_numbers_multi_discrete_pairs_witness :
  EnvWrapper.int64 8
  /\ 8 mod 3 <> 1
  /\ EnvWrapper.DiscreteBenchmarkEnvWrapper.step_action 8
     = EnvWrapper.MultiDiscreteBenchmarkEnvWrapper.step_action [8 mod 3; 8 / 3].
Proof.
  assert (EnvWrapper.int64 8) as Hfit by (unfold EnvWrapper.int64; lia).
  assert (8 mod 3 <> 1) as Hne by (vm_compute; discriminate).
  split; [exact Hfit|]. split; [exact Hne|].
  exact (proj1 (@discrete_id_numbers_multi_discrete_pairs Stubs.data_helper 8 Hfit) Hne).
Defined.


Lemma main_writes_requested_episodes_witness :
  (forall col : nat, fst (Stubs.collect col 5) <> [])
  /\ (Z.to_nat 12 <= 12)%nat
  /\ exists N written collector',
       CollectData.main Stubs.collect 12 5 12 0%nat = Some (N, written, collector')
       /\ written.*1 = seqZ 1 N
       /\ 12 <= N <= 12 + 1.
Proof.
  assert (forall col : nat, fst (Stubs.collect col 5) <> []) as Hne.
  { intros col. vm_compute. discriminate. }
  assert (Z.to_nat 12 <= 12)%nat as Hr by (vm_compute; lia).
  split; [exact Hne|]. split; [exact Hr|].
  destruct (main_writes_requested_episodes Stubs.collect 12 5 12 0%nat)
    as [Hright Hends].
  destruct (Hends Hne Hr) as [[[N written] collector'] Hrun].
  exists N, written, collector'. split; [exact Hrun|].
  destruct (Hright N written collector' Hrun) as (Hnum & _ & Hbound).
  split; [exact Hnum | apply Hbound; lia].
Defined.

Lemma main_overshoots_unless_env_num_divides_witness :
  0 < 5 /\ 0 < 12
  /\ (forall col : nat, length (fst (Stubs.collect col 5)) = Z.to_nat 5)
  /\ (Z.to_nat 12 <= 12)%nat
  /\ ~ (5 | 12)
  /\ exists written collector',
       CollectData.main Stubs.collect 12 5 12 0%nat = Some (12 + 1, written, collector').
Proof.
  assert (0 < 5) as Hb by lia. assert (0 < 12) as HE by lia.
  assert (forall col : nat, length (fst (Stubs.collect col 5)) = Z.to_nat 5) as Hfull.
  { intros col. reflexivity. }
  assert (Z.to_nat 12 <= 12)%nat as Hr by (vm_compute; lia).
  assert (~ (5 | 12)) as Hnd.
  { intros [k Hk]. lia. }
  split; [exact Hb|]. split; [exact HE|]. split; [exact Hfull|]. split; [exact Hr|].
  split; [exact Hnd|].
  destruct (main_overshoots_unless_env_num_divides Stubs.collect 12 5 12 0%nat
              Hb HE Hfull Hr) as (N & written & collector' & Hrun & _ & _ & Hover).
  rewrite (Hover Hnd) in Hrun. by exists written, collector'.
Defined.
